(** * coqui-server: the text normalizer and the /tts handler of [app.py]

    A shallow embedding of [src/app.py].  Python strings are sequences of
    Unicode code points, so a [str] is a list of code points ([N]).  The
    functions of Python's standard library that the program calls
    ([re.search], [re.sub], [str.replace], [str.splitlines], [str.strip],
    slicing) are modelled below with the behaviour the interpreter gives
    them.  What the repository does not contain is a parameter: the emoji
    stripper [demoji.replace] and the line separator [os.linesep] for the
    normalizer; the speech model, the FLAC encoder and the names of the
    temporary files for the handler, which runs in a state and error monad
    over the file system and the calls made to the speech model.

    The [while match:] loops of [remove_markdown_styles] have no bound in
    the source.  They take a [fuel] here and return [None] when it runs
    out; that they end, and with how much fuel, is proved below. *)

From Stdlib Require Import Strings.String Strings.Ascii NArith ZArith Lia.
From Stdlib Require Import DecimalString DecimalPos DecimalZ QArith.
From stdpp Require Import base option list gmap strings stringmap.

Open Scope N_scope.
Open Scope nat_scope.

(** ** Strings *)

Abbreviation str := (list N).

(** An ASCII literal as a Python string. *)
Definition lit (s : string) : str :=
  N_of_ascii <$> list_ascii_of_string s.

Definition LF : N := 10%N.       (* "\n" *)
Definition CR : N := 13%N.       (* "\r" *)
Definition SP : N := 32%N.       (* " " *)
Definition PERCENT : N := 37%N.  (* "%" *)
Definition STAR : N := 42%N.     (* "*" *)
Definition PLUS : N := 43%N.     (* "+" *)
Definition MINUS : N := 45%N.    (* "-" *)
Definition DEG : N := 176%N.     (* U+00B0, the degree sign *)

(** [s.startswith(p)] *)
Fixpoint startswith (p s : str) : bool :=
  match p, s with
  | [], _ => true
  | _ :: _, [] => false
  | a :: p', b :: s' => bool_decide (a = b) && startswith p' s'
  end.

(** [s[start:stop]] for non-negative indices. *)
Definition py_slice (s : str) (start stop : nat) : str :=
  take (stop - start) (drop start s).

(** [g[offset:-offset]]: the stop index [-offset] counts from the end and is
    clamped at 0; [-0] is the index 0. *)
Definition slice_trim (g : str) (offset : nat) : str :=
  py_slice g offset (match offset with 0 => 0 | _ => length g - offset end).

(** [s.replace(old, new, 1)]: only the first occurrence is replaced. *)
Fixpoint str_replace_first (old new s : str) : str :=
  if startswith old s then new ++ drop (length old) s
  else match s with
       | [] => []
       | c :: s' => c :: str_replace_first old new s'
       end.

(** [s.replace(old, new)] for a non-empty [old]: the occurrences are taken
    from left to right and do not overlap.  [skip] counts the characters of
    the occurrence just replaced that are still to be passed over. *)
Fixpoint str_replace_skip (old new : str) (skip : nat) (s : str) : str :=
  match s with
  | [] => []
  | c :: s' =>
      match skip with
      | S k => str_replace_skip old new k s'
      | 0 => if startswith old s
             then new ++ str_replace_skip old new (length old - 1) s'
             else c :: str_replace_skip old new 0 s'
      end
  end.

(** [s.replace(old, new)]; with an empty [old] Python inserts [new] before
    every character and at the end. *)
Definition str_replace (old new s : str) : str :=
  match old with
  | [] => new ++ flat_map (λ c, c :: new) s
  | _ => str_replace_skip old new 0 s
  end.

(** [sep.join(parts)] *)
Fixpoint str_join (sep : str) (parts : list str) : str :=
  match parts with
  | [] => []
  | [p] => p
  | p :: rest => p ++ sep ++ str_join sep rest
  end.

(** The line boundaries of [str.splitlines]: LF, VT, FF, CR, FS, GS, RS,
    NEL, LS and PS. *)
Definition is_linebreak (c : N) : bool :=
  ((10 <=? c) && (c <=? 13) || (28 <=? c) && (c <=? 30)
   || (c =? 133) || (c =? 8232) || (c =? 8233))%N.

(** [s.splitlines()].  [cur] holds the current line reversed; [after_cr]
    says that the previous character was a CR, so that a LF that follows
    belongs to the same boundary.  A last line without a terminator is kept
    only when it is not empty. *)
Fixpoint splitlines_from (after_cr : bool) (cur : str) (s : str) : list str :=
  match s with
  | [] => match cur with [] => [] | _ => [reverse cur] end
  | c :: s' =>
      if after_cr && bool_decide (c = LF) then splitlines_from false cur s'
      else if is_linebreak c
           then reverse cur :: splitlines_from (bool_decide (c = CR)) [] s'
           else splitlines_from false (c :: cur) s'
  end.

Definition splitlines (s : str) : list str := splitlines_from false [] s.

(** [c.isspace()]: the characters [str.strip()] removes. *)
Definition is_space (c : N) : bool :=
  ((9 <=? c) && (c <=? 13) || (28 <=? c) && (c <=? 32)
   || (c =? 133) || (c =? 160) || (c =? 5760)
   || (8192 <=? c) && (c <=? 8202)
   || (c =? 8232) || (c =? 8233) || (c =? 8239) || (c =? 8287)
   || (c =? 12288))%N.

Fixpoint lstrip (s : str) : str :=
  match s with
  | [] => []
  | c :: s' => if is_space c then lstrip s' else s
  end.

Definition rstrip (s : str) : str := reverse (lstrip (reverse s)).

(** [s.strip()] *)
Definition strip (s : str) : str := rstrip (lstrip s).

(** ** Regular expressions

    The three patterns of the program use literals, the lazy [.*?] and the
    greedy [c+].  The capturing group of [(.*?)] does not change which text
    is matched and the program only reads group 0, so it is not
    represented. *)

Inductive atom :=
  | Lit (c : N)      (* an escaped or plain literal character *)
  | DotLazyStar      (* .*?  ; "." does not match LF *)
  | Plus (c : N).    (* c+   ; greedy *)

Abbreviation regex_t := (list atom).

(** The backtracking matcher anchored at the start of [s]: the length of
    the match the engine finds first, if any. *)
Fixpoint re_match_here (re : regex_t) : str → option nat :=
  match re with
  | [] => λ _, Some 0
  | Lit c :: re' => λ s,
      match s with
      | x :: s' => if decide (x = c) then S <$> re_match_here re' s' else None
      | [] => None
      end
  | DotLazyStar :: re' =>
      fix lazy (s : str) : option nat :=
        match re_match_here re' s with
        | Some n => Some n
        | None =>
            match s with
            | x :: s' => if decide (x = LF) then None else S <$> lazy s'
            | [] => None
            end
        end
  | Plus c :: re' => λ s,
      match s with
      | x :: s' =>
          if decide (x = c)
          then S <$> (fix greedy (s1 : str) : option nat :=
                        match s1 with
                        | y :: s2 =>
                            if decide (y = c)
                            then match greedy s2 with
                                 | Some n => Some (S n)
                                 | None => re_match_here re' s1
                                 end
                            else re_match_here re' s1
                        | [] => re_match_here re' s1
                        end) s'
          else None
      | [] => None
      end
  end.

(** A match object: the string searched and the span of the match. *)
Record Match := { m_string : str; m_start : nat; m_end : nat }.

(** [match.group()] *)
Definition group (m : Match) : str :=
  py_slice (m_string m) (m_start m) (m_end m).

(** [re.search]: the match at the leftmost position where the pattern
    matches; [s] is the text from [pos] on. *)
Fixpoint re_search_from (re : regex_t) (whole : str) (pos : nat) (s : str)
  : option Match :=
  match re_match_here re s with
  | Some n => Some {| m_string := whole; m_start := pos; m_end := pos + n |}
  | None =>
      match s with
      | [] => None
      | _ :: s' => re_search_from re whole (S pos) s'
      end
  end.

Definition re_search (re : regex_t) (s : str) : option Match :=
  re_search_from re s 0 s.

(** [re.sub(re, repl, s)] for a pattern that matches no empty string:
    leftmost non-overlapping matches are replaced.  [skip] counts the
    characters of the current match still to be passed over. *)
Fixpoint re_sub_skip (re : regex_t) (repl : str) (skip : nat) (s : str) : str :=
  match s with
  | [] => []
  | c :: s' =>
      match skip with
      | S k => re_sub_skip re repl k s'
      | 0 => match re_match_here re s with
             | Some (S n) => repl ++ re_sub_skip re repl n s'
             | _ => c :: re_sub_skip re repl 0 s'
             end
      end
  end.

Definition re_sub (re : regex_t) (repl s : str) : str := re_sub_skip re repl 0 s.

(** ** Markdown styles *)

Inductive style_name := BOLD | ITALIC.

Record Style := { style : style_name; regex : regex_t; offset : nat }.

(** [STYLES]: the patterns are [\*\*(.*?)\*\*] and [\*(.*?)\*]. *)
Definition STYLES : list Style :=
  [ {| style := BOLD;
       regex := [Lit STAR; Lit STAR; DotLazyStar; Lit STAR; Lit STAR];
       offset := 2 |};
    {| style := ITALIC;
       regex := [Lit STAR; DotLazyStar; Lit STAR];
       offset := 1 |} ].

(** One turn of the [while match:] loop body. *)
Definition rewrite_match (offset : nat) (message : str) (m : Match) : str :=
  let g := group m in
  str_replace_first g (slice_trim g offset) message.

(** The [while match:] loop of one style.  The loop of the source has no
    bound; [fuel] bounds the number of turns and [None] means that it ran
    out before the loop ended. *)
Fixpoint while_match (fuel : nat) (re : regex_t) (offset : nat) (message : str)
  : option str :=
  match re_search re message with
  | None => Some message
  | Some m =>
      match fuel with
      | 0 => None
      | S fuel' => while_match fuel' re offset (rewrite_match offset message m)
      end
  end.

(** [remove_markdown_styles]: [for style in STYLES], the loop of that
    style on the message the previous style left. *)
Definition remove_markdown_styles (fuel : nat) (text : str) : option str :=
  foldl (λ acc st, message ← acc; while_match fuel (regex st) (offset st) message)
        (Some text) STYLES.


(** ** The normalizer *)

Section Normalizer.

(** [os.linesep] *)
Variable linesep : str.

(** [demoji.replace(text, "")], the emoji stripper of the [demoji]
    package. *)
Variable demoji_replace : str → str.

(** [os.linesep.join([s for s in text.splitlines() if s])] *)
Definition drop_blank_lines (text : str) : str :=
  str_join linesep (filter (λ s, s ≠ []) (splitlines text)).

(** The literal substitutions, the strip, the collapse of spaces and the
    expansion of the degree units, in the order of the source. *)
Definition substitutions (text : str) : str :=
  let text := str_replace [PERCENT] (lit " percent") text in
  let text := str_replace [STAR] [MINUS] text in
  let text := str_replace (lit "  +") (lit "  -") text in
  let text := strip (str_replace [CR] [] text) in
  let text := re_sub [Plus SP] [SP] text in
  let text := str_replace (DEG :: lit "F") (DEG :: lit " Fahrenheit") text in
  let text := str_replace (DEG :: lit "C") (DEG :: lit " Celsius") text in
  let text := str_replace (DEG :: lit "K") (DEG :: lit " Kelvin") text in
  text.

(** [clean_text_for_tts]; [None] only when the markdown loops ran out of
    [fuel]. *)
Definition clean_text_for_tts (fuel : nat) (text : str) : option str :=
  let text := drop_blank_lines text in
  let text := demoji_replace text in
  text ← remove_markdown_styles fuel text;
  Some (substitutions text).

End Normalizer.

(** ** The /tts handler *)

Abbreviation bytes := (list Byte.byte).

Inductive exn :=
  | HTTPException (status_code : Z) (detail : string)
  | SynthesisError            (* [tts_client.tts_to_file] raised *)
  | EncoderError              (* the [pyflac] encoder raised *)
  | FileNotFoundError (path : string).

Inductive outcome (A : Type) :=
  | Returned (a : A)
  | Raised (e : exn)
  | OutOfFuel.
Arguments Returned {A} a.
Arguments Raised {A} e.
Arguments OutOfFuel {A}.

Record Response := { content : bytes; media_type : string }.

Definition HTTP_400_BAD_REQUEST : Z := 400.

Section Handler.

Variable linesep : str.
Variable demoji_replace : str → str.

(** The type of the [speed] form field. *)
Variable float : Type.

(** What [tts_client.tts_to_file(text, speaker, speed, file_path)] writes
    to [file_path]; [None] when the call raises. *)
Variable synthesize : str → str → option float → option bytes.

(** What the FLAC encoder writes for the content of its input file;
    [None] when it raises. *)
Variable flac_encode : bytes → option bytes.

(** The name [tempfile.NamedTemporaryFile] picks in a file system, for a
    suffix. *)
Variable temp_name : gmap string bytes → string → string.

(** The world the handler acts on: the files, and the calls made to the
    synthesis capability so far. *)
Record World := {
  files : gmap string bytes;
  synth_calls : list (str * str * option float)
}.

Definition M (A : Type) : Type := World → outcome A * World.

Definition ret {A} (a : A) : M A := λ w, (Returned a, w).
Definition raise {A} (e : exn) : M A := λ w, (Raised e, w).
Definition bind {A B} (m : M A) (k : A → M B) : M B :=
  λ w, match m w with
       | (Returned a, w') => k a w'
       | (Raised e, w') => (Raised e, w')
       | (OutOfFuel, w') => (OutOfFuel, w')
       end.

Local Notation "x <- m ;; k" := (bind m (λ x, k))
  (at level 100, m at next level, right associativity).
Local Notation "m ;;; k" := (bind m (λ _, k))
  (at level 100, right associativity).

(** [with tempfile.NamedTemporaryFile(suffix=..., delete=False) as f:
    path = f.name]: an empty file is created and stays. *)
Definition named_temporary_file (suffix : string) : M string :=
  λ w, let path := temp_name (files w) suffix in
       (Returned path,
        {| files := <[path := []]> (files w); synth_calls := synth_calls w |}).

(** [tts_client.tts_to_file(text=..., speaker=..., speed=..., file_path=...)] *)
Definition tts_to_file (text speaker : str) (speed : option float)
    (file_path : string) : M unit :=
  λ w, let w' := {| files := files w;
                    synth_calls := synth_calls w ++ [(text, speaker, speed)] |} in
       match synthesize text speaker speed with
       | Some wav => (Returned (),
                      {| files := <[file_path := wav]> (files w');
                         synth_calls := synth_calls w' |})
       | None => (Raised SynthesisError, w')
       end.

(** [pyflac.FileEncoder(input_file, output_file)], [process()] and
    [finish()]. *)
Definition file_encoder (input_file output_file : string) : M unit :=
  λ w, match files w !! input_file with
       | None => (Raised (FileNotFoundError input_file), w)
       | Some wav =>
           match flac_encode wav with
           | Some flac => (Returned (),
                           {| files := <[output_file := flac]> (files w);
                              synth_calls := synth_calls w |})
           | None => (Raised EncoderError, w)
           end
       end.

(** [async with aiofiles.open(path, "rb") as f: content = await f.read()] *)
Definition read_file (path : string) : M bytes :=
  λ w, match files w !! path with
       | Some b => (Returned b, w)
       | None => (Raised (FileNotFoundError path), w)
       end.

(** [os.remove(path)] *)
Definition os_remove (path : string) : M unit :=
  λ w, match files w !! path with
       | Some _ => (Returned (),
                    {| files := delete path (files w);
                       synth_calls := synth_calls w |})
       | None => (Raised (FileNotFoundError path), w)
       end.

(** [clean_text_for_tts(text)] evaluated inside the handler. *)
Definition call_clean_text_for_tts (fuel : nat) (text : str) : M str :=
  λ w, match clean_text_for_tts linesep demoji_replace fuel text with
       | Some t => (Returned t, w)
       | None => (OutOfFuel, w)
       end.

(** [str(n)] of an [int]. *)
Definition str_of_int (n : Z) : str :=
  lit (NilZero.string_of_int (Z.to_int n)).

(** [bool(compress)] of an [Optional[bool]]. *)
Definition truthy (b : option bool) : bool := default false b.

(** The handler of [POST /tts] once the two checks are passed: the
    synthesis to a temporary WAV file, and the response. *)
Definition tts_serve (fuel : nat) (text : str) (speaker_id : Z)
    (speed : option float) (compress : option bool) : M Response :=
  wav_path <- named_temporary_file ".wav" ;;
  normalized <- call_clean_text_for_tts fuel text ;;
  tts_to_file normalized (lit "p" ++ str_of_int speaker_id) speed wav_path ;;;
  if truthy compress then
    flac_path <- named_temporary_file ".flac" ;;
    file_encoder wav_path flac_path ;;;
    content <- read_file flac_path ;;
    os_remove wav_path ;;;
    os_remove flac_path ;;;
    ret {| content := content; media_type := "audio/flac" |}
  else
    content <- read_file wav_path ;;
    os_remove wav_path ;;;
    ret {| content := content; media_type := "audio/wav" |}.

(** The handler of [POST /tts].  A form field that was not sent is
    [None].  [if not text] holds for [None] and for the empty string,
    [if not speaker_id] for [None] and for 0. *)
Definition tts (fuel : nat) (text : option str) (speaker_id : option Z)
    (speed : option float) (compress : option bool) : M Response :=
  match text with
  | None | Some [] =>
      raise (HTTPException HTTP_400_BAD_REQUEST
               "Text to convert into speech must be provided.")
  | Some text =>
      match speaker_id with
      | None | Some 0%Z =>
          raise (HTTPException HTTP_400_BAD_REQUEST
                   "Speaker ID must be provided.")
      | Some speaker_id => tts_serve fuel text speaker_id speed compress
      end
  end.

(** A computation that makes no call to the synthesis capability. *)
Definition keeps_calls {A} (m : M A) : Prop :=
  ∀ w, synth_calls (m w).2 = synth_calls w.

End Handler.

Arguments files {float} w.
Arguments synth_calls {float} w.
Arguments ret {float A} a w.
Arguments raise {float A} e w.
Arguments bind {float A B} m k w.
Arguments named_temporary_file {float} temp_name suffix w.
Arguments tts_to_file {float} synthesize text speaker speed file_path w.
Arguments file_encoder {float} flac_encode input_file output_file w.
Arguments read_file {float} path w.
Arguments os_remove {float} path w.
Arguments call_clean_text_for_tts linesep demoji_replace {float} fuel text w.
Arguments tts_serve linesep demoji_replace {float} synthesize flac_encode
  temp_name fuel text speaker_id speed compress w.
Arguments tts linesep demoji_replace {float} synthesize flac_encode temp_name
  fuel text speaker_id speed compress w.
Arguments keeps_calls {float A} m.


(** ** The shape of the two patterns

    Both patterns of [STYLES] are a delimiter, the lazy [.*?] and the same
    delimiter; the delimiter of a style is [offset] asterisks. *)

Definition delim (k : nat) : str := replicate k STAR.

Definition pair_regex (d : str) : regex_t :=
  (Lit <$> d) ++ DotLazyStar :: (Lit <$> d).

(** ** The markdown pass in the words of the specification

    The pattern of a delimiter [d] matches a text [d ++ inner ++ d] whose
    [inner] part has no line feed.  One rewrite takes the first non-greedy
    match and replaces the whole span by [inner]. *)

Inductive strip_first (d : str) : str → str → Prop :=
  | strip_first_span (pre inner post : str) :
      LF ∉ inner →
      (* non-greedy: no closing delimiter before the one taken *)
      (∀ j, j < length inner →
            ∀ r, drop j (inner ++ d ++ post) ≠ d ++ r) →
      (* first: the pattern matches nowhere to the left of the span *)
      (∀ p inner' post', p < length pre → LF ∉ inner' →
            drop p (pre ++ d ++ inner ++ d ++ post)
            ≠ d ++ inner' ++ d ++ post') →
      strip_first d (pre ++ d ++ inner ++ d ++ post) (pre ++ inner ++ post).

(** No match of the pattern of [d] is left in [s]. *)
Definition no_match (d s : str) : Prop :=
  ∀ pre inner post, LF ∉ inner → s ≠ pre ++ d ++ inner ++ d ++ post.

(** The rewrite repeated until no match of the style exists. *)
Definition exhausts (d s out : str) : Prop :=
  rtc (strip_first d) s out ∧ no_match d out.

(** ** The substitutions in the words of the specification *)

(** How [s.replace(old, new)] goes through [s], as a relation between the
    text and the result. *)
Inductive replaced (old new : str) : str → str → Prop :=
  | replaced_nil : replaced old new [] []
  | replaced_hit s r :
      s ≠ [] → startswith old s = true →
      replaced old new (drop (length old) s) r →
      replaced old new s (new ++ r)
  | replaced_miss c s r :
      startswith old (c :: s) = false →
      replaced old new s r →
      replaced old new (c :: s) (c :: r).


(** "Runs of multiple spaces": the text has two spaces in a row. *)
Definition no_double_space (s : str) : Prop :=
  ∀ pre post, s ≠ pre ++ SP :: SP :: post.

(** "Replace every run of one-or-more spaces with a single space": a space
    that another space follows is dropped. *)
Fixpoint collapse_spaces (s : str) : str :=
  match s with
  | [] => []
  | c :: s' =>
      if decide (c = SP)
      then if decide (head s' = Some SP)
           then collapse_spaces s'
           else SP :: collapse_spaces s'
      else c :: collapse_spaces s'
  end.

(** The number of spaces a text starts with. *)
Fixpoint leading_spaces (s : str) : nat :=
  match s with
  | c :: s' => if decide (c = SP) then S (leading_spaces s') else 0
  | [] => 0
  end.

(** "Only the exact substring [  +] is affected": a plus sign becomes a
    minus sign exactly when two spaces come right before it.  [n] is the
    number of spaces right before the text, counted up to 2. *)
Fixpoint minus_after_two_spaces (n : nat) (s : str) : str :=
  match s with
  | [] => []
  | c :: s' =>
      if decide (c = PLUS ∧ n = 2)
      then MINUS :: minus_after_two_spaces 0 s'
      else c :: minus_after_two_spaces
                  (if decide (c = SP) then Nat.min 2 (S n) else 0) s'
  end.

(** The text [a] followed by [n] times the characters [new]. *)
Definition repeated (new : str) (n : nat) : str :=
  lit "a" ++ concat (replicate n new).

(** The character [x] comes right after the character [a] somewhere in
    the text. *)
Definition follows (a x : N) (s : str) : Prop :=
  ∃ pre post, s = pre ++ a :: x :: post.

(** The text with a carriage return put before every line feed. *)
Definition with_crlf (s : str) : str :=
  flat_map (λ c, if decide (c = LF) then [CR; LF] else [c]) s.

(** A text that [strip()] leaves as it is: no white space at either end. *)
Definition trimmed (s : str) : Prop :=
  lstrip s = s ∧ lstrip (reverse s) = reverse s.

(** ** An instance of the emoji stripper

    The normalizer is run on concrete texts with this stand-in for
    [demoji.replace]: it deletes the code points of the pictograph blocks
    (U+2600 to U+27BF and U+1F000 to U+1FAFF) and keeps every other
    character. *)
Definition is_pictograph (c : N) : bool :=
  ((9728 <=? c) && (c <=? 10175) || (126976 <=? c) && (c <=? 129791))%N.

Definition strip_pictographs (s : str) : str :=
  filter (λ c, is_pictograph c = false) s.

(** ** Instances of the capabilities

    The handler is run on concrete requests with these stand-ins: a
    synthesizer that knows the voices [p225] and [p226] and fails for any
    other speaker label, an encoder that puts a marker before the audio it
    is given, and temporary names that are fresh in the file system.  The
    speed is a rational number. *)

Definition sample_synthesize (text speaker : str) (speed : option Q)
  : option bytes :=
  if bool_decide (speaker ∈ [lit "p225"; lit "p226"])
  then Some (Byte.x52 :: Byte.x49 :: Byte.x46 :: Byte.x46
             :: ((λ _, Byte.x00) <$> text))
  else None.

Definition sample_flac_encode (wav : bytes) : option bytes :=
  Some (Byte.x66 :: Byte.x4c :: Byte.x61 :: Byte.x43 :: wav).

(** An encoder that raises on every input. *)
Definition broken_flac_encode (wav : bytes) : option bytes := None.

Definition sample_temp_name (fs : gmap string bytes) (suffix : string)
  : string :=
  fresh_string ("/tmp/tmp" +:+ suffix) fs.

(** * Properties *)

(** ** Prefixes, slices and replacement *)

Lemma startswith_true p s : startswith p s = true ↔ ∃ r, s = p ++ r.
Proof.
  revert s. induction p as [|a p IH]; intros s; simpl.
  - split; [eauto | done].
  - destruct s as [|b s]; [split; [done | by intros [? ?]] |].
    rewrite andb_true_iff, bool_decide_eq_true, IH. split.
    + intros [-> [r ->]]. eauto.
    + intros [r [= -> ->]]. eauto.
Qed.

Lemma startswith_app p r : startswith p (p ++ r) = true.
Proof. apply startswith_true. eauto. Qed.

Lemma startswith_false p s :
  startswith p s = false ↔ ∀ r, s ≠ p ++ r.
Proof.
  rewrite <- not_true_iff_false, startswith_true. split.
  - intros H r ->. apply H. eauto.
  - intros H [r ->]. by apply (H r).
Qed.

Lemma py_slice_middle (pre g post : str) :
  py_slice (pre ++ g ++ post) (length pre) (length pre + length g) = g.
Proof.
  unfold py_slice. rewrite drop_app_length.
  replace (length pre + length g - length pre) with (length g) by lia.
  by rewrite take_app_length.
Qed.

Lemma slice_trim_delims (d inner : str) :
  d ≠ [] → slice_trim (d ++ inner ++ d) (length d) = inner.
Proof.
  intros Hd. unfold slice_trim, py_slice.
  destruct (length d) as [|k] eqn:Hk; [by destruct d |].
  rewrite <- Hk. rewrite !length_app.
  replace (length d + (length inner + length d) - length d - length d)
    with (length inner) by lia.
  by rewrite drop_app_length, take_app_length.
Qed.

Lemma str_replace_first_unfold (old new s : str) :
  str_replace_first old new s =
  if startswith old s then new ++ drop (length old) s
  else match s with
       | [] => []
       | c :: s' => c :: str_replace_first old new s'
       end.
Proof. by destruct s. Qed.

(** Replacing the first occurrence of [g] rewrites the span at [pre] when
    [g] does not occur further left. *)
Lemma str_replace_first_at (g new pre post : str) :
  (∀ p, p < length pre → startswith g (drop p (pre ++ g ++ post)) = false) →
  str_replace_first g new (pre ++ g ++ post) = pre ++ new ++ post.
Proof.
  induction pre as [|c pre IH]; intros Hleft.
  - rewrite str_replace_first_unfold. simpl.
    by rewrite startswith_app, drop_app_length.
  - rewrite str_replace_first_unfold.
    pose proof (Hleft 0 (Nat.lt_0_succ _)) as H0. simpl in H0.
    simpl. rewrite H0. f_equal. apply IH.
    intros p Hp. apply (Hleft (S p)). simpl. lia.
Qed.

(** ** The matcher on the patterns of [STYLES] *)

Lemma STYLES_regex st : st ∈ STYLES → regex st = pair_regex (delim (offset st)).
Proof.
  unfold STYLES. rewrite !elem_of_cons, elem_of_nil.
  intros [-> | [-> | []]]; reflexivity.
Qed.

Lemma STYLES_offset st : st ∈ STYLES → offset st = 2 ∨ offset st = 1.
Proof.
  unfold STYLES. rewrite !elem_of_cons, elem_of_nil.
  intros [-> | [-> | []]]; auto.
Qed.

Lemma match_lits (d : str) (re : regex_t) (s : str) :
  re_match_here ((Lit <$> d) ++ re) s =
  if startswith d s
  then (λ n, length d + n) <$> re_match_here re (drop (length d) s)
  else None.
Proof.
  revert s. induction d as [|a d IH]; intros s.
  - simpl. rewrite drop_0. by destruct (re_match_here re s).
  - destruct s as [|x s]; [done |]. simpl.
    destruct (decide (x = a)) as [->|Hne].
    + rewrite bool_decide_eq_true_2 by done. simpl.
      rewrite IH. destruct (startswith d s); [|done].
      by destruct (re_match_here re (drop (length d) s)).
    + rewrite bool_decide_eq_false_2 by congruence. done.
Qed.

Lemma match_lits_only (d s : str) :
  re_match_here (Lit <$> d) s = if startswith d s then Some (length d) else None.
Proof.
  rewrite <- (app_nil_r (Lit <$> d)), match_lits. simpl.
  destruct (startswith d s); [|done]. simpl. f_equal. lia.
Qed.

Lemma match_lazy_unfold (re : regex_t) (s : str) :
  re_match_here (DotLazyStar :: re) s =
  match re_match_here re s with
  | Some n => Some n
  | None =>
      match s with
      | x :: s' =>
          if decide (x = LF) then None
          else S <$> re_match_here (DotLazyStar :: re) s'
      | [] => None
      end
  end.
Proof. by destruct s. Qed.

Lemma match_lazy_delim_Some (d s : str) (n : nat) :
  re_match_here (DotLazyStar :: (Lit <$> d)) s = Some n →
  ∃ inner post,
    s = inner ++ d ++ post ∧ n = length inner + length d ∧ (LF ∉ inner) ∧
    (∀ j, j < length inner → startswith d (drop j s) = false).
Proof.
  revert n. induction s as [|x s IH]; intros n;
    rewrite match_lazy_unfold, match_lits_only.
  - destruct (startswith d []) eqn:E; [|done]. intros [= <-].
    apply startswith_true in E as [r E]. exists [], r.
    split_and!; [done | done | apply not_elem_of_nil | simpl; lia].
  - destruct (startswith d (x :: s)) eqn:E.
    + intros [= <-]. apply startswith_true in E as [r E]. exists [], r.
      split_and!; [done | done | apply not_elem_of_nil | simpl; lia].
    + destruct (decide (x = LF)) as [|Hx]; [done |].
      destruct (re_match_here (DotLazyStar :: (Lit <$> d)) s) as [k|] eqn:Ek;
        [|done].
      intros [= <-].
      destruct (IH k eq_refl) as (inner & post & -> & -> & Hlf & Hng).
      exists (x :: inner), post. split_and!; [done | done | |].
      * by apply not_elem_of_cons.
      * intros [|j] Hj; [exact E |]. simpl in *. apply Hng. lia.
Qed.

Lemma match_lazy_delim_complete (d inner post : str) :
  LF ∉ inner →
  is_Some (re_match_here (DotLazyStar :: (Lit <$> d)) (inner ++ d ++ post)).
Proof.
  induction inner as [|x inner IH]; intros Hlf;
    rewrite match_lazy_unfold, match_lits_only.
  - simpl. rewrite startswith_app. eauto.
  - destruct (startswith d _); [eauto |].
    apply not_elem_of_cons in Hlf as [Hx Hlf]. cbn [app].
    rewrite decide_False by done.
    destruct (IH Hlf) as [k ->]. simpl. eauto.
Qed.

Lemma match_pair_Some (d s : str) (n : nat) :
  re_match_here (pair_regex d) s = Some n →
  ∃ inner post,
    s = d ++ inner ++ d ++ post ∧
    n = length d + (length inner + length d) ∧ (LF ∉ inner) ∧
    (∀ j, j < length inner →
          startswith d (drop j (inner ++ d ++ post)) = false).
Proof.
  unfold pair_regex. rewrite match_lits.
  destruct (startswith d s) eqn:E; [|done].
  apply startswith_true in E as [r ->]. rewrite drop_app_length.
  destruct (re_match_here _ r) as [k|] eqn:Ek; [|done].
  intros [= <-].
  apply match_lazy_delim_Some in Ek as (inner & post & -> & -> & Hlf & Hng).
  by exists inner, post.
Qed.

Lemma match_pair_complete (d inner post : str) :
  LF ∉ inner →
  is_Some (re_match_here (pair_regex d) (d ++ inner ++ d ++ post)).
Proof.
  intros Hlf. unfold pair_regex. rewrite match_lits, startswith_app.
  rewrite drop_app_length.
  destruct (match_lazy_delim_complete d inner post Hlf) as [k ->].
  simpl. eauto.
Qed.

(** ** [re.search] *)

Lemma re_search_from_Some (re : regex_t) (whole : str) (pos : nat) (s : str)
    (m : Match) :
  re_search_from re whole pos s = Some m →
  ∃ i n,
    m = {| m_string := whole; m_start := pos + i; m_end := pos + i + n |} ∧
    i ≤ length s ∧ re_match_here re (drop i s) = Some n ∧
    (∀ j, j < i → re_match_here re (drop j s) = None).
Proof.
  revert pos. induction s as [|x s IH]; intros pos; simpl.
  - destruct (re_match_here re []) as [n|] eqn:E; [|done].
    intros [= <-]. exists 0, n. rewrite Nat.add_0_r.
    split_and!; [done | done | done | lia].
  - destruct (re_match_here re (x :: s)) as [n|] eqn:E.
    + intros [= <-]. exists 0, n. rewrite Nat.add_0_r.
      split_and!; [done | lia | done | lia].
    + intros H. destruct (IH _ H) as (i & n & -> & Hi & Hm & Hleft).
      exists (S i), n. split_and!; [f_equal; lia | lia | done |].
      intros [|j] Hj; [done |]. simpl. apply Hleft. lia.
Qed.

Lemma re_search_from_None (re : regex_t) (whole : str) (pos : nat) (s : str) :
  re_search_from re whole pos s = None →
  ∀ j, re_match_here re (drop j s) = None.
Proof.
  revert pos. induction s as [|x s IH]; intros pos; simpl.
  - destruct (re_match_here re []) eqn:E; [done |]. intros _ j.
    by rewrite drop_nil.
  - destruct (re_match_here re (x :: s)) eqn:E; [done |].
    intros H [|j]; [done |]. simpl. by eapply IH.
Qed.

Lemma re_search_from_None_intro (re : regex_t) (whole : str) (pos : nat)
    (s : str) :
  (∀ j, re_match_here re (drop j s) = None) →
  re_search_from re whole pos s = None.
Proof.
  revert pos. induction s as [|x s IH]; intros pos H; simpl.
  - pose proof (H 0) as H0. rewrite drop_0 in H0. by rewrite H0.
  - pose proof (H 0) as H0. rewrite drop_0 in H0. rewrite H0.
    apply IH. intros j. apply (H (S j)).
Qed.

(** What [re.search] finds for a delimiter pair: the text splits around
    the match, which is the leftmost one and closes at the first closing
    delimiter. *)
Lemma re_search_pair_Some (d message : str) (m : Match) :
  re_search (pair_regex d) message = Some m →
  ∃ pre inner post,
    message = pre ++ d ++ inner ++ d ++ post ∧
    m = {| m_string := message; m_start := length pre;
           m_end := length pre + length (d ++ inner ++ d) |} ∧
    (LF ∉ inner) ∧
    (∀ j, j < length inner →
          startswith d (drop j (inner ++ d ++ post)) = false) ∧
    (∀ p, p < length pre →
          re_match_here (pair_regex d) (drop p message) = None).
Proof.
  intros H. apply re_search_from_Some in H as (i & n & -> & Hi & Hm & Hleft).
  apply match_pair_Some in Hm as (inner & post & Hs & -> & Hlf & Hng).
  exists (take i message), inner, post.
  rewrite length_take_le by done.
  split_and!; [| | done | done | done].
  - by rewrite <- Hs, take_drop.
  - simpl. f_equal. rewrite !length_app. lia.
Qed.

Lemma re_search_pair_None (d message : str) :
  re_search (pair_regex d) message = None ↔ no_match d message.
Proof.
  unfold no_match. split.
  - intros H pre inner post Hlf ->.
    pose proof (re_search_from_None _ _ _ _ H (length pre)) as Hn.
    rewrite drop_app_length in Hn.
    destruct (match_pair_complete d inner post Hlf) as [k Hk]. congruence.
  - intros H. apply re_search_from_None_intro. intros j.
    destruct (re_match_here _ (drop j message)) as [n|] eqn:E; [|done].
    apply match_pair_Some in E as (inner & post & Hs & _ & Hlf & _).
    destruct (H (take j message) inner post Hlf).
    by rewrite <- Hs, take_drop.
Qed.

(** One turn of the loop replaces the matched span by its inner text. *)
Lemma rewrite_match_pair (d pre inner post : str) :
  d ≠ [] → LF ∉ inner →
  (∀ p, p < length pre →
        re_match_here (pair_regex d) (drop p (pre ++ d ++ inner ++ d ++ post))
        = None) →
  rewrite_match (length d) (pre ++ d ++ inner ++ d ++ post)
    {| m_string := pre ++ d ++ inner ++ d ++ post; m_start := length pre;
       m_end := length pre + length (d ++ inner ++ d) |}
  = pre ++ inner ++ post.
Proof.
  intros Hd Hlf Hleft. unfold rewrite_match, group. simpl.
  assert (pre ++ d ++ inner ++ d ++ post = pre ++ (d ++ inner ++ d) ++ post)
    as Hassoc by (by rewrite <- !(assoc_L (++))).
  rewrite Hassoc. rewrite py_slice_middle, slice_trim_delims by done.
  apply str_replace_first_at. intros p Hp.
  apply startswith_false. intros r Hr.
  specialize (Hleft p Hp). rewrite Hassoc, Hr in Hleft.
  rewrite <- !(assoc_L (++)) in Hleft.
  destruct (match_pair_complete d inner r Hlf) as [k Hk]. congruence.
Qed.

(** ** The loop of one style *)

Lemma while_match_unfold (fuel : nat) (re : regex_t) (k : nat) (message : str) :
  while_match fuel re k message =
  match re_search re message with
  | None => Some message
  | Some m =>
      match fuel with
      | 0 => None
      | S fuel' => while_match fuel' re k (rewrite_match k message m)
      end
  end.
Proof. by destruct fuel. Qed.

(** A turn of the loop is a [strip_first] rewrite that shortens the message
    by both delimiters. *)
Lemma loop_turn (d message : str) (m : Match) :
  d ≠ [] →
  re_search (pair_regex d) message = Some m →
  strip_first d message (rewrite_match (length d) message m) ∧
  2 * length d ≤ length (group m) ∧
  length (rewrite_match (length d) message m) + 2 * length d = length message.
Proof.
  intros Hd H.
  apply re_search_pair_Some in H
    as (pre & inner & post & -> & -> & Hlf & Hng & Hleft).
  rewrite rewrite_match_pair by done. split_and!.
  - constructor; [done | |].
    + intros j Hj r. by apply startswith_false, Hng.
    + intros p inner' post' Hp Hlf' Hdrop. specialize (Hleft p Hp).
      rewrite Hdrop in Hleft.
      destruct (match_pair_complete d inner' post' Hlf') as [k Hk]. congruence.
  - unfold group. simpl.
    assert (pre ++ d ++ inner ++ d ++ post = pre ++ (d ++ inner ++ d) ++ post)
      as -> by (by rewrite <- !(assoc_L (++))).
    rewrite py_slice_middle, !length_app. lia.
  - rewrite !length_app. lia.
Qed.

Lemma while_match_pair (d : str) (n : nat) :
  d ≠ [] →
  ∀ message, length message ≤ n →
  ∃ out,
    (∀ fuel, length message ≤ fuel →
             while_match fuel (pair_regex d) (length d) message = Some out) ∧
    exhausts d message out ∧ length out ≤ length message.
Proof.
  intros Hd.
  assert (0 < length d) by (destruct d; [done | simpl; lia]).
  assert (∀ message, re_search (pair_regex d) message = None →
    ∃ out,
      (∀ fuel, length message ≤ fuel →
               while_match fuel (pair_regex d) (length d) message = Some out) ∧
      exhausts d message out ∧ length out ≤ length message) as Hdone.
  { intros message E. exists message. split_and!; [| |done].
    - intros fuel _. by rewrite while_match_unfold, E.
    - split; [done |]. by apply re_search_pair_None. }
  induction n as [|n IH]; intros message Hlen;
    destruct (re_search (pair_regex d) message) as [m|] eqn:E;
    [| by auto | | by auto];
    destruct (loop_turn d message m Hd E) as (Hstep & _ & Hshort); [lia |].
  destruct (IH (rewrite_match (length d) message m))
    as (out & Hrun & [Hrtc Hno] & Hle); [lia |].
  exists out. split_and!; [| |lia].
  - intros [|fuel] Hfuel; [lia |].
    rewrite while_match_unfold, E. apply Hrun. lia.
  - split; [|done]. by eapply rtc_l.
Qed.

Lemma remove_markdown_styles_unfold (fuel : nat) (text : str) :
  remove_markdown_styles fuel text =
  message ← while_match fuel (pair_regex (delim 2)) (length (delim 2)) text;
  while_match fuel (pair_regex (delim 1)) (length (delim 1)) message.
Proof. reflexivity. Qed.

Lemma remove_markdown_styles_runs (text : str) :
  ∃ mid out,
    (∀ fuel, length text ≤ fuel → remove_markdown_styles fuel text = Some out) ∧
    exhausts (delim 2) text mid ∧ exhausts (delim 1) mid out ∧
    length out ≤ length text.
Proof.
  destruct (while_match_pair (delim 2) (length text) ltac:(done) text)
    as (mid & Hrun1 & Hex1 & Hle1); [done |].
  destruct (while_match_pair (delim 1) (length mid) ltac:(done) mid)
    as (out & Hrun2 & Hex2 & Hle2); [done |].
  exists mid, out. split_and!; [| done | done | lia].
  intros fuel Hfuel. rewrite remove_markdown_styles_unfold.
  rewrite (Hrun1 fuel Hfuel). simpl. apply Hrun2. lia.
Qed.

(** The rewrite of the specification is a function: the first non-greedy
    match is unique. *)
Lemma strip_first_deterministic (d s r1 r2 : str) :
  strip_first d s r1 → strip_first d s r2 → r1 = r2.
Proof.
  intros H1 H2.
  destruct H1 as [pre1 in1 post1 Hlf1 Hng1 Hleft1].
  remember (pre1 ++ d ++ in1 ++ d ++ post1) as s eqn:Hs.
  destruct H2 as [pre2 in2 post2 Hlf2 Hng2 Hleft2].
  assert (length pre1 = length pre2) as Hpre.
  { destruct (Nat.lt_trichotomy (length pre1) (length pre2)) as [Hlt | [? | Hlt]];
      [exfalso | done | exfalso].
    - apply (Hleft2 (length pre1) in1 post1 Hlt Hlf1).
      first [by rewrite drop_app_length | by rewrite Hs, drop_app_length
            | by rewrite <- Hs, drop_app_length].
    - apply (Hleft1 (length pre2) in2 post2 Hlt Hlf2).
      first [by rewrite drop_app_length | by rewrite Hs, drop_app_length
            | by rewrite <- Hs, drop_app_length]. }
  apply app_inj_1 in Hs as [-> Hs]; [|done].
  apply app_inv_head in Hs.
  assert (length in1 = length in2) as Hin.
  { destruct (Nat.lt_trichotomy (length in1) (length in2)) as [Hlt | [? | Hlt]];
      [exfalso | done | exfalso].
    - apply (Hng2 (length in1) Hlt post1).
      first [by rewrite drop_app_length | by rewrite Hs, drop_app_length
            | by rewrite <- Hs, drop_app_length].
    - apply (Hng1 (length in2) Hlt post2).
      first [by rewrite drop_app_length | by rewrite Hs, drop_app_length
            | by rewrite <- Hs, drop_app_length]. }
  apply app_inj_1 in Hs as [-> Hs]; [|done].
  apply app_inv_head in Hs. by subst.
Qed.

Lemma strip_first_has_match (d s r : str) : strip_first d s r → ¬ no_match d s.
Proof. intros [pre inner post Hlf _ _] Hno. by apply (Hno pre inner post). Qed.

Lemma exhausts_unique (d s out1 out2 : str) :
  exhausts d s out1 → exhausts d s out2 → out1 = out2.
Proof.
  intros [Hrtc1 Hno1] [Hrtc2 Hno2].
  induction Hrtc1 as [s | s s' out1 Hstep Hrtc1 IH].
  - destruct Hrtc2 as [| s s' out2 Hstep _]; [done |].
    by destruct (strip_first_has_match _ _ _ Hstep).
  - destruct Hrtc2 as [| s s'' out2 Hstep' Hrtc2].
    + by destruct (strip_first_has_match _ _ _ Hstep).
    + rewrite (strip_first_deterministic _ _ _ _ Hstep' Hstep) in Hrtc2. auto.
Qed.

(** ** The markdown pass *)

(** C1.  [remove_markdown_styles] is the sequential fixed-point rewrite of
    the specification: it returns for every text, and its result is reached
    by rewriting the first non-greedy match of the bold pattern to its inner
    content until no bold match is left, and only then doing the same with
    the italic pattern; the rewrites leave no other result possible.  It
    works one match at a time: a text with two bold spans takes two turns of
    the loop. *)
Theorem remove_markdown_styles_sequential_fixpoint (text : str) :
  (∃ mid out,
     (∀ k, remove_markdown_styles (length text + k) text = Some out) ∧
     exhausts (lit "**") text mid ∧ exhausts (lit "*") mid out ∧
     (∀ mid' out', exhausts (lit "**") text mid' →
                   exhausts (lit "*") mid' out' → out' = out)) ∧
  remove_markdown_styles 1 (lit "**a** **b**") = None ∧
  remove_markdown_styles 2 (lit "**a** **b**") = Some (lit "a b").
Proof.
  split; [| split; reflexivity].
  destruct (remove_markdown_styles_runs text)
    as (mid & out & Hrun & Hbold & Hitalic & _).
  exists mid, out. split_and!; [| done | done |].
  - intros k. apply Hrun. lia.
  - intros mid' out' Hbold' Hitalic'.
    assert (mid' = mid) as -> by (by eapply exhausts_unique).
    by eapply exhausts_unique.
Qed.

(** C10.  Each turn of either loop replaces a matched span of at least
    twice the offset by a text shorter by exactly twice the offset, and so
    the loops end: [remove_markdown_styles] returns as soon as the fuel
    is the length of the text. *)
Theorem remove_markdown_styles_terminates :
  (∀ st message m,
      st ∈ STYLES → re_search (regex st) message = Some m →
      2 * offset st ≤ length (group m) ∧
      length (rewrite_match (offset st) message m) + 2 * offset st
      = length message) ∧
  (∀ text fuel,
      length text ≤ fuel → is_Some (remove_markdown_styles fuel text)).
Proof.
  split.
  - intros st message m Hst Hm.
    rewrite (STYLES_regex st Hst) in Hm.
    assert (offset st = length (delim (offset st))) as Hoff
      by (unfold delim; by rewrite length_replicate).
    assert (delim (offset st) ≠ []) as Hd
      by (by destruct (STYLES_offset st Hst) as [-> | ->]).
    rewrite Hoff at 1 2 3.
    destruct (loop_turn _ _ _ Hd Hm) as (_ & ? & ?). done.
  - intros text fuel Hfuel.
    destruct (remove_markdown_styles_runs text) as (mid & out & Hrun & _).
    rewrite (Hrun fuel Hfuel). eauto.
Qed.

Lemma remove_markdown_styles_terminates_witness :
  let st := {| style := BOLD;
               regex := [Lit STAR; Lit STAR; DotLazyStar; Lit STAR; Lit STAR];
               offset := 2 |} in
  let message := lit "a **b** c" in
  let m := {| m_string := message; m_start := 2; m_end := 7 |} in
  (2 * offset st ≤ length (group m) ∧
   length (rewrite_match (offset st) message m) + 2 * offset st
   = length message) ∧
  is_Some (remove_markdown_styles 9 message).
Proof.
  destruct remove_markdown_styles_terminates as [Hturn Hrun].
  split.
  - apply Hturn; [apply list_elem_of_here | reflexivity].
  - apply Hrun. vm_compute. lia.
Defined.

(** ** [str.replace] *)

Lemma str_replace_skip_drop (old new : str) (k : nat) (s : str) :
  str_replace_skip old new k s = str_replace_skip old new 0 (drop k s).
Proof.
  revert k. induction s as [|c s IH]; intros [|k]; try done. simpl. apply IH.
Qed.

Lemma str_replace_replaced (old new s : str) :
  old ≠ [] → replaced old new s (str_replace old new s).
Proof.
  intros Hold.
  assert (str_replace old new s = str_replace_skip old new 0 s) as ->
    by (by destruct old).
  remember (length s) as n eqn:Hn. revert s Hn.
  induction n as [n IH] using lt_wf_ind. intros [|c s] ->; [constructor |].
  simpl. destruct (startswith old (c :: s)) eqn:E.
  - rewrite str_replace_skip_drop.
    replace (drop (length old - 1) s) with (drop (length old) (c :: s))
      by (destruct old; [done | simpl; by rewrite Nat.sub_0_r]).
    apply replaced_hit; [done | done |].
    eapply IH; [|done]. rewrite length_drop. simpl.
    destruct old; [done | simpl; lia].
  - apply replaced_miss; [done |]. eapply IH; [|done]. simpl. lia.
Qed.

(** Characters of the result come from the text or from [new]. *)
Lemma replaced_elem_of (old new s r : str) (x : N) :
  replaced old new s r → x ∈ r → x ∈ s ∨ x ∈ new.
Proof.
  induction 1 as [| s r Hs Hhit Hrep IH | c s r Hmiss Hrep IH]; intros Hx.
  - by left.
  - apply elem_of_app in Hx as [Hx | Hx]; [by right |].
    destruct (IH Hx) as [Hd | ?]; [left | by right].
    by eapply (subseteq_drop (length old)).
  - apply elem_of_cons in Hx as [-> | Hx]; [left; apply list_elem_of_here |].
    destruct (IH Hx) as [? | ?]; [left | by right].
    by apply list_elem_of_further.
Qed.

Lemma str_replace_elem_of (old new s : str) (x : N) :
  old ≠ [] → x ∈ str_replace old new s → x ∈ s ∨ x ∈ new.
Proof.
  intros Hold Hx.
  eapply replaced_elem_of; [by apply str_replace_replaced | done].
Qed.

(** Replacing a single character leaves none of it. *)
Lemma str_replace_char_gone (c : N) (new s : str) :
  c ∉ new → c ∉ str_replace [c] new s.
Proof.
  intros Hnew.
  pose proof (str_replace_replaced [c] new s ltac:(done)) as H.
  induction H as [| s r Hs Hhit Hrep IH | x s r Hmiss Hrep IH].
  - apply not_elem_of_nil.
  - rewrite elem_of_app. tauto.
  - apply not_elem_of_cons. split; [|done].
    intros ->. simpl in Hmiss. by rewrite bool_decide_eq_true_2 in Hmiss.
Qed.

(** A text without the first character of [old] is left as it is. *)
Lemma str_replace_absent (c : N) (old new s : str) :
  c ∉ s → str_replace (c :: old) new s = s.
Proof.
  intros Hc.
  pose proof (str_replace_replaced (c :: old) new s ltac:(done)) as H.
  induction H as [| s r Hs Hhit Hrep IH | x s r Hmiss Hrep IH].
  - done.
  - apply startswith_true in Hhit as [t ->]. destruct Hc. apply list_elem_of_here.
  - f_equal. apply IH. by apply not_elem_of_cons in Hc as [_ ?].
Qed.

(** ** Runs of spaces *)

Lemma no_double_space_nil : no_double_space [].
Proof. intros [|? ?] post; done. Qed.

Lemma no_double_space_cons (a : N) (s : str) :
  no_double_space (a :: s) ↔
  ¬ (a = SP ∧ head s = Some SP) ∧ no_double_space s.
Proof.
  split.
  - intros H. split.
    + intros [-> Hh]. destruct s as [|b s]; [done |].
      simpl in Hh. injection Hh as ->. by apply (H [] s).
    + intros pre post ->. by apply (H (a :: pre) post).
  - intros [Hh H] [|b pre] post E; simplify_eq/=.
    + by apply Hh.
    + by apply (H pre post).
Qed.

Lemma no_double_space_drop (k : nat) (s : str) :
  no_double_space s → no_double_space (drop k s).
Proof.
  intros H pre post E. apply (H (take k s ++ pre) post).
  by rewrite <- (take_drop k s) at 1; rewrite E, <- (assoc_L (++)).
Qed.

Lemma no_double_space_app (a b : str) :
  no_double_space a → no_double_space b → last a ≠ Some SP →
  no_double_space (a ++ b).
Proof.
  intros Ha Hb Hlast. induction a as [|x a IH]; [done |].
  apply no_double_space_cons in Ha as [Hx Ha]. simpl.
  apply no_double_space_cons. split.
  - intros [-> Hh]. destruct a as [|y a]; [done |]. by apply Hx.
  - apply IH; [done |]. destruct a; [done |]. by rewrite last_cons_cons in Hlast.
Qed.

Lemma no_double_space_startswith (r s : str) :
  no_double_space s → startswith (SP :: SP :: r) s = false.
Proof.
  intros H. apply startswith_false. intros t ->. by apply (H [] (r ++ t)).
Qed.

(** [str.replace] with a [new] that neither starts nor ends with a space
    makes no run of spaces. *)
Lemma replaced_no_double_space (old new s r : str) :
  no_double_space new → head new ≠ Some SP → last new ≠ Some SP → new ≠ [] →
  replaced old new s r →
  no_double_space s →
  no_double_space r ∧ (head r = Some SP → head s = Some SP).
Proof.
  intros Hnew Hhead Hlast Hne.
  induction 1 as [| s r Hs Hhit Hrep IH | c s r Hmiss Hrep IH]; intros Hnds.
  - done.
  - destruct (IH (no_double_space_drop _ _ Hnds)) as [Hr _]. split.
    + by apply no_double_space_app.
    + destruct new; [done |]. simpl in *. done.
  - apply no_double_space_cons in Hnds as [Hc Hnds].
    destruct (IH Hnds) as [Hr Hh]. split; [|done].
    apply no_double_space_cons. split; [|done].
    intros [-> Hr']. apply Hc. auto.
Qed.

(** ** The collapse of spaces *)

Lemma re_sub_skip_drop (re : regex_t) (repl : str) (k : nat) (s : str) :
  re_sub_skip re repl k s = re_sub_skip re repl 0 (drop k s).
Proof.
  revert k. induction s as [|c s IH]; intros [|k]; try done. simpl. apply IH.
Qed.

Lemma match_plus_space (c : N) (s : str) :
  re_match_here [Plus SP] (c :: s) =
  if decide (c = SP) then Some (S (leading_spaces s)) else None.
Proof.
  simpl. destruct (decide (c = SP)); [|done].
  match goal with
  | |- S <$> ?g s = _ => assert (g s = Some (leading_spaces s)) as ->
  end; [|done].
  induction s as [|y s IH]; [done |]. simpl.
  destruct (decide (y = SP)); [|done]. by rewrite IH.
Qed.

Lemma collapse_spaces_run (s : str) :
  collapse_spaces (SP :: s) = SP :: collapse_spaces (drop (leading_spaces s) s).
Proof.
  induction s as [|y s IH]; [done |].
  change (collapse_spaces (SP :: y :: s)) with
    (if decide (head (y :: s) = Some SP) then collapse_spaces (y :: s)
     else SP :: collapse_spaces (y :: s)).
  simpl head. simpl leading_spaces.
  destruct (decide (y = SP)) as [-> | Hy].
  - rewrite decide_True by done. by rewrite IH.
  - rewrite decide_False by (simpl; congruence). done.
Qed.

(** [re.sub(" +", " ", s)] is the collapse of the specification. *)
Lemma re_sub_collapse (s : str) : re_sub [Plus SP] [SP] s = collapse_spaces s.
Proof.
  unfold re_sub. remember (length s) as n eqn:Hn. revert s Hn.
  induction n as [n IH] using lt_wf_ind. intros [|c s] ->; [done |].
  cbn [re_sub_skip]. rewrite match_plus_space.
  destruct (decide (c = SP)) as [-> | Hc].
  - rewrite re_sub_skip_drop, collapse_spaces_run. simpl. f_equal.
    eapply IH; [|done]. rewrite length_drop. simpl. lia.
  - simpl. rewrite decide_False by done. f_equal.
    eapply IH; [|done]. simpl. lia.
Qed.

Lemma collapse_spaces_head (s : str) : head (collapse_spaces s) = head s.
Proof.
  induction s as [|c s IH]; [done |]. simpl.
  destruct (decide (c = SP)) as [-> | ?]; [|done].
  destruct (decide (head s = Some SP)) as [Hh | ?]; [|done].
  by rewrite IH.
Qed.

Lemma collapse_spaces_no_double_space (s : str) :
  no_double_space (collapse_spaces s).
Proof.
  induction s as [|c s IH]; [apply no_double_space_nil |]. simpl.
  destruct (decide (c = SP)) as [-> | Hc].
  - destruct (decide (head s = Some SP)) as [Hh | Hh]; [done |].
    apply no_double_space_cons. split; [|done].
    rewrite collapse_spaces_head. tauto.
  - apply no_double_space_cons. split; [tauto | done].
Qed.

Lemma collapse_spaces_id (s : str) :
  no_double_space s → collapse_spaces s = s.
Proof.
  induction s as [|c s IH]; [done |]. intros [Hc H]%no_double_space_cons.
  simpl. destruct (decide (c = SP)) as [-> | ?]; [|by rewrite IH].
  rewrite decide_False by tauto. by rewrite IH.
Qed.

Lemma collapse_spaces_elem_of (x : N) (s : str) :
  x ∈ collapse_spaces s → x ∈ s.
Proof.
  induction s as [|c s IH]; [done |]. simpl.
  destruct (decide (c = SP)) as [-> | ?].
  - destruct (decide (head s = Some SP)).
    + intros ?. apply list_elem_of_further. auto.
    + rewrite !elem_of_cons. intros [? | ?]; auto.
  - rewrite !elem_of_cons. intros [? | ?]; auto.
Qed.

(** ** [str.strip] *)

Lemma lstrip_elem_of (x : N) (s : str) : x ∈ lstrip s → x ∈ s.
Proof.
  induction s as [|c s IH]; [done |]. simpl.
  destruct (is_space c); [|done]. intros ?. apply list_elem_of_further. auto.
Qed.

Lemma strip_elem_of (x : N) (s : str) : x ∈ strip s → x ∈ s.
Proof.
  unfold strip, rstrip. rewrite elem_of_reverse. intros H.
  apply lstrip_elem_of in H. rewrite elem_of_reverse in H.
  by apply lstrip_elem_of.
Qed.

Lemma lstrip_head (s : str) (c : N) :
  head (lstrip s) = Some c → is_space c = false.
Proof.
  induction s as [|x s IH]; [done |]. simpl.
  destruct (is_space x) eqn:E; [done |]. by intros [= <-].
Qed.

Lemma lstrip_id (s : str) :
  (∀ c, head s = Some c → is_space c = false) → lstrip s = s.
Proof. destruct s as [|x s]; [done |]. intros H. simpl. by rewrite (H x). Qed.

Lemma lstrip_snoc (s : str) (c : N) :
  is_space c = false → lstrip (s ++ [c]) = lstrip s ++ [c].
Proof.
  intros Hc. induction s as [|x s IH]; simpl; [by rewrite Hc |].
  by destruct (is_space x).
Qed.

Lemma strip_trimmed (s : str) : trimmed (strip s).
Proof.
  unfold trimmed, strip, rstrip. rewrite reverse_involutive. split.
  - apply lstrip_id. intros c.
    destruct (lstrip s) as [|x u] eqn:Eu; [done |].
    assert (is_space x = false) as Hx by (apply (lstrip_head s); by rewrite Eu).
    rewrite reverse_cons, lstrip_snoc, reverse_snoc by done.
    by intros [= <-].
  - apply lstrip_id, lstrip_head.
Qed.

Lemma trimmed_strip (s : str) : trimmed s → strip s = s.
Proof.
  intros [H1 H2]. unfold strip, rstrip.
  by rewrite H1, H2, reverse_involutive.
Qed.

Lemma trimmed_ends (s : str) :
  trimmed s ↔
  (∀ c, head s = Some c → is_space c = false) ∧
  (∀ c, last s = Some c → is_space c = false).
Proof.
  unfold trimmed. split.
  - intros [H1 H2]. split; intros c Hc.
    + apply (lstrip_head s). by rewrite H1.
    + apply (lstrip_head (reverse s)). by rewrite H2, head_reverse.
  - intros [H1 H2]. split; apply lstrip_id; [done |].
    intros c. rewrite head_reverse. apply H2.
Qed.

Lemma collapse_spaces_last (s : str) : last (collapse_spaces s) = last s.
Proof.
  induction s as [|x s IH]; [done |]. simpl.
  destruct (decide (x = SP)) as [-> | ?].
  - destruct (decide (head s = Some SP)) as [Hh | ?].
    + rewrite IH. destruct s; [done |]. by rewrite last_cons_cons.
    + by rewrite !last_cons, IH.
  - by rewrite !last_cons, IH.
Qed.

Lemma collapse_spaces_trimmed (s : str) :
  trimmed s → trimmed (collapse_spaces s).
Proof.
  rewrite !trimmed_ends, collapse_spaces_head, collapse_spaces_last. done.
Qed.

(** ** The substitutions *)

(** A decidable fact about concrete texts, by evaluation. *)
Ltac by_evaluation := apply (bool_decide_unpack _); vm_compute; exact I.

(** [H] says that a character is in a concrete text that does not have it. *)
Ltac absurd_elem H :=
  exfalso; revert H; apply (bool_decide_unpack (_ ∉ _)); vm_compute; exact I.

Lemma no_match_absent (c : N) (d s : str) : c ∈ d → c ∉ s → no_match d s.
Proof.
  intros Hd Hs pre inner post _ ->. apply Hs.
  rewrite !elem_of_app. auto.
Qed.

Lemma collapse_spaces_fixed (s : str) :
  collapse_spaces s = s → no_double_space s.
Proof. intros <-. apply collapse_spaces_no_double_space. Qed.

Lemma str_replace_no_double_space (old new s : str) :
  old ≠ [] → collapse_spaces new = new →
  head new ≠ Some SP → last new ≠ Some SP → new ≠ [] →
  no_double_space s → no_double_space (str_replace old new s).
Proof.
  intros Hold Hnew Hhead Hlast Hne Hs.
  by destruct (replaced_no_double_space old new s (str_replace old new s)
                (collapse_spaces_fixed _ Hnew) Hhead Hlast Hne
                (str_replace_replaced _ _ _ Hold) Hs).
Qed.

(** What the steps after the markdown pass leave in a text. *)
Lemma substitutions_free (text : str) :
  (PERCENT ∉ substitutions text) ∧ (STAR ∉ substitutions text) ∧
  (CR ∉ substitutions text) ∧ no_double_space (substitutions text).
Proof.
  unfold substitutions.
  set (z1 := str_replace [PERCENT] (lit " percent") text).
  set (z2 := str_replace [STAR] [MINUS] z1).
  set (z3 := str_replace (lit "  +") (lit "  -") z2).
  set (z4 := str_replace [CR] [] z3).
  assert (PERCENT ∉ z1) as H1 by (apply str_replace_char_gone; by_evaluation).
  assert (STAR ∉ z2) as H2 by (apply str_replace_char_gone; by_evaluation).
  assert (CR ∉ z4) as H4 by (apply str_replace_char_gone; by_evaluation).
  assert (PERCENT ∉ z4) as H1'.
  { intros H.
    apply str_replace_elem_of in H as [H | H]; [| absurd_elem H | done].
    apply str_replace_elem_of in H as [H | H]; [| absurd_elem H | done].
    apply str_replace_elem_of in H as [H | H]; [| absurd_elem H | done].
    done. }
  assert (STAR ∉ z4) as H2'.
  { intros H.
    apply str_replace_elem_of in H as [H | H]; [| absurd_elem H | done].
    apply str_replace_elem_of in H as [H | H]; [| absurd_elem H | done].
    done. }
  rewrite re_sub_collapse.
  assert (∀ x, x ∉ z4 → x ∉ DEG :: lit " FahrenheitCelsiusKelvin" →
    x ∉ str_replace (DEG :: lit "K") (DEG :: lit " Kelvin")
          (str_replace (DEG :: lit "C") (DEG :: lit " Celsius")
             (str_replace (DEG :: lit "F") (DEG :: lit " Fahrenheit")
                (collapse_spaces (strip z4))))) as Htail.
  { intros x Hx Hnew H.
    assert (∀ new, new ⊆ DEG :: lit " FahrenheitCelsiusKelvin" → x ∉ new)
      as Hsub by (intros new Hsub ?; apply Hnew; by apply Hsub).
    apply str_replace_elem_of in H as [H | H]; [| | done].
    2:{ revert H. apply Hsub. by_evaluation. }
    apply str_replace_elem_of in H as [H | H]; [| | done].
    2:{ revert H. apply Hsub. by_evaluation. }
    apply str_replace_elem_of in H as [H | H]; [| | done].
    2:{ revert H. apply Hsub. by_evaluation. }
    by apply collapse_spaces_elem_of, strip_elem_of in H. }
  split_and!; [apply Htail; [done | by_evaluation] ..|].
  repeat (apply str_replace_no_double_space;
          [done | done | done | done | done |]).
  apply collapse_spaces_no_double_space.
Qed.

(** More fuel does not change what a loop returns. *)
Lemma while_match_more_fuel (fuel j : nat) (re : regex_t) (k : nat)
    (message out : str) :
  while_match fuel re k message = Some out →
  while_match (fuel + j) re k message = Some out.
Proof.
  revert message. induction fuel as [|fuel IH]; intros message;
    rewrite !while_match_unfold;
    destruct (re_search re message) as [m|]; try done.
  simpl. apply IH.
Qed.

Lemma remove_markdown_styles_more_fuel (fuel j : nat) (text out : str) :
  remove_markdown_styles fuel text = Some out →
  remove_markdown_styles (fuel + j) text = Some out.
Proof.
  rewrite !remove_markdown_styles_unfold. intros H.
  destruct (while_match fuel _ _ text) as [mid|] eqn:E; [|done].
  rewrite (while_match_more_fuel _ j _ _ _ _ E). simpl in *.
  by apply while_match_more_fuel.
Qed.

Lemma remove_markdown_styles_no_star (fuel : nat) (text : str) :
  STAR ∉ text → remove_markdown_styles fuel text = Some text.
Proof.
  intros H. rewrite remove_markdown_styles_unfold.
  assert (∀ k, 0 < k →
    while_match fuel (pair_regex (delim k)) (length (delim k)) text = Some text)
    as Hloop.
  { intros k Hk. rewrite while_match_unfold.
    assert (re_search (pair_regex (delim k)) text = None) as ->; [|done].
    apply re_search_pair_None. apply (no_match_absent STAR); [|done].
    destruct k; [lia | apply list_elem_of_here]. }
  rewrite Hloop by lia. simpl. apply Hloop. lia.
Qed.

Lemma clean_text_for_tts_more_fuel (linesep : str) (demoji_replace : str → str)
    (fuel j : nat) (text out : str) :
  clean_text_for_tts linesep demoji_replace fuel text = Some out →
  clean_text_for_tts linesep demoji_replace (fuel + j) text = Some out.
Proof.
  unfold clean_text_for_tts. intros H.
  destruct (remove_markdown_styles fuel _) as [m|] eqn:E; [|done].
  by rewrite (remove_markdown_styles_more_fuel _ j _ _ E).
Qed.

(** ** The normalizer *)

(** C2.  Whatever [clean_text_for_tts] returns has no percent sign, no
    asterisk (and so no match of the bold or of the italic pattern), no
    carriage return and no two spaces in a row. *)
Theorem clean_text_for_tts_output_free (linesep : str)
    (demoji_replace : str → str) (fuel : nat) (text out : str) :
  clean_text_for_tts linesep demoji_replace fuel text = Some out →
  (PERCENT ∉ out) ∧ (STAR ∉ out) ∧
  no_match (lit "**") out ∧ no_match (lit "*") out ∧
  (CR ∉ out) ∧ no_double_space out.
Proof.
  unfold clean_text_for_tts. intros H.
  destruct (remove_markdown_styles fuel _) as [m|]; [|done].
  injection H as <-.
  destruct (substitutions_free m) as (Hp & Hs & Hc & Hd).
  split_and!; try done; apply (no_match_absent STAR); try done; by_evaluation.
Qed.

Lemma clean_text_for_tts_output_free_witness :
  let out := lit "50 percent off - " ++ [LF] ++ lit "now" in
  (PERCENT ∉ out) ∧ (STAR ∉ out) ∧
  no_match (lit "**") out ∧ no_match (lit "*") out ∧
  (CR ∉ out) ∧ no_double_space out.
Proof.
  apply (clean_text_for_tts_output_free [LF] strip_pictographs 2
           (lit " **50%** *off*   * " ++ [CR] ++ lit "now ")).
  vm_compute. reflexivity.
Defined.

(** C9.  [clean_text_for_tts] returns a string for every text: none of its
    steps can fail, and the markdown loops end. *)
Theorem clean_text_for_tts_total (linesep : str) (demoji_replace : str → str)
    (text : str) :
  ∃ out, ∀ k,
    clean_text_for_tts linesep demoji_replace
      (length (demoji_replace (drop_blank_lines linesep text)) + k) text
    = Some out.
Proof.
  destruct (remove_markdown_styles_runs
              (demoji_replace (drop_blank_lines linesep text)))
    as (mid & m & Hrun & _).
  exists (substitutions m). intros k. unfold clean_text_for_tts.
  rewrite Hrun by lia. done.
Qed.

(** Running the normalizer on a text that has one line and that the emoji
    stripper leaves as it is. *)
Lemma clean_text_for_tts_run (linesep : str) (demoji_replace : str → str)
    (fuel j : nat) (text m : str) :
  drop_blank_lines linesep text = text →
  demoji_replace text = text →
  remove_markdown_styles fuel text = Some m →
  clean_text_for_tts linesep demoji_replace (fuel + j) text
  = Some (substitutions m).
Proof.
  intros Hb Hd Hm. apply clean_text_for_tts_more_fuel.
  unfold clean_text_for_tts. by rewrite Hb, Hd, Hm.
Qed.

(** C7.  The examples of the specification: on a platform whose emoji
    stripper leaves these emoji-free texts as they are, the normalizer maps
    them to the stated results. *)
Theorem clean_text_for_tts_examples (linesep : str)
    (demoji_replace : str → str) (fuel : nat) :
  demoji_replace [] = [] →
  demoji_replace (lit "**a** and *b*") = lit "**a** and *b*" →
  demoji_replace (lit "50% off") = lit "50% off" →
  demoji_replace (lit "it's 70" ++ DEG :: lit "F today")
  = lit "it's 70" ++ DEG :: lit "F today" →
  clean_text_for_tts linesep demoji_replace (1 + fuel) (lit "**a** and *b*")
  = Some (lit "a and b") ∧
  clean_text_for_tts linesep demoji_replace (1 + fuel) (lit "50% off")
  = Some (lit "50 percent off") ∧
  clean_text_for_tts linesep demoji_replace (1 + fuel)
    (lit "it's 70" ++ DEG :: lit "F today")
  = Some (lit "it's 70" ++ DEG :: lit " Fahrenheit today") ∧
  clean_text_for_tts linesep demoji_replace (1 + fuel) [] = Some [].
Proof.
  intros H0 H1 H2 H3.
  split_and!;
    (erewrite clean_text_for_tts_run;
     [ | vm_compute; reflexivity | eassumption | vm_compute; reflexivity ]);
    vm_compute; reflexivity.
Qed.

Lemma clean_text_for_tts_examples_witness :
  clean_text_for_tts [LF] strip_pictographs 1 (lit "**a** and *b*")
  = Some (lit "a and b") ∧
  clean_text_for_tts [LF] strip_pictographs 1 (lit "50% off")
  = Some (lit "50 percent off") ∧
  clean_text_for_tts [LF] strip_pictographs 1
    (lit "it's 70" ++ DEG :: lit "F today")
  = Some (lit "it's 70" ++ DEG :: lit " Fahrenheit today") ∧
  clean_text_for_tts [LF] strip_pictographs 1 [] = Some [].
Proof.
  apply (clean_text_for_tts_examples [LF] strip_pictographs 0);
    vm_compute; reflexivity.
Defined.

(** The other texts of the specification's list of testable properties,
    on a POSIX platform. *)
Example clean_text_for_tts_more_examples :
  clean_text_for_tts [LF] strip_pictographs 1 (lit "**hello**")
  = Some (lit "hello") ∧
  clean_text_for_tts [LF] strip_pictographs 1 (lit "*hi*") = Some (lit "hi") ∧
  clean_text_for_tts [LF] strip_pictographs 0 (lit "too   many   spaces")
  = Some (lit "too many spaces") ∧
  clean_text_for_tts [LF] strip_pictographs 0
    (lit "line1" ++ LF :: LF :: lit "line2" ++ [LF])
  = Some (lit "line1" ++ LF :: lit "line2") ∧
  clean_text_for_tts [LF] strip_pictographs 0 (lit "2 * 3 = 6 " ++ [128512%N])
  = Some (lit "2 - 3 = 6").
Proof. repeat split; vm_compute; reflexivity. Qed.

(** The replacement of [  +] is the rewrite of the specification. *)
Lemma replace_plus_spaces (n : nat) (s : str) :
  n ≤ 2 →
  str_replace (lit "  +") (lit "  -") (replicate n SP ++ s)
  = replicate n SP ++ minus_after_two_spaces n s.
Proof.
  revert n. induction s as [|c s IH]; intros n Hn.
  - destruct n as [|[|[|n]]]; [done | done | done | lia].
  - assert (∀ t, str_replace (lit "  +") (lit "  -") (SP :: SP :: PLUS :: t)
                 = SP :: SP :: MINUS :: str_replace (lit "  +") (lit "  -") t)
      as Hhit by done.
    assert (∀ x t, x ≠ SP →
                   str_replace (lit "  +") (lit "  -") (x :: t)
                   = x :: str_replace (lit "  +") (lit "  -") t) as Hmiss1.
    { intros x t Hx. unfold str_replace. simpl.
      by rewrite bool_decide_eq_false_2 by done. }
    assert (∀ x t, x ≠ SP →
                   str_replace (lit "  +") (lit "  -") (SP :: x :: t)
                   = SP :: str_replace (lit "  +") (lit "  -") (x :: t))
      as Hmiss2.
    { intros x t Hx. unfold str_replace. simpl.
      by rewrite (bool_decide_eq_false_2 (SP = x)) by done. }
    assert (∀ t, str_replace (lit "  +") (lit "  -") (SP :: SP :: SP :: t)
                 = SP :: str_replace (lit "  +") (lit "  -") (SP :: SP :: t))
      as Hmiss3 by done.
    simpl minus_after_two_spaces.
    destruct (decide (c = SP)) as [-> | Hc].
    + rewrite decide_False by (intros [? _]; done).
      destruct n as [|[|[|n]]]; [| | | lia].
      * apply (IH 1). lia.
      * apply (IH 2). lia.
      * cbn [replicate app]. rewrite Hmiss3. f_equal. apply (IH 2). lia.
    + destruct (decide (c = PLUS ∧ n = 2)) as [[-> ->] | Hn2].
      * cbn [replicate app]. rewrite Hhit. do 3 f_equal. apply (IH 0). lia.
      * assert (c ≠ PLUS ∨ n ≠ 2) as Hor
          by (destruct (decide (c = PLUS)); [right; intros ?; tauto | by left]).
        destruct n as [|[|[|n]]]; [| | | lia]; cbn [replicate app].
        -- rewrite Hmiss1 by done. f_equal. apply (IH 0). lia.
        -- rewrite Hmiss2, Hmiss1 by done. do 2 f_equal. apply (IH 0). lia.
        -- destruct Hor as [Hp | ?]; [|done].
           assert (str_replace (lit "  +") (lit "  -") (SP :: SP :: c :: s)
                   = SP :: str_replace (lit "  +") (lit "  -") (SP :: c :: s))
             as ->.
           { unfold str_replace. simpl.
             by rewrite (bool_decide_eq_false_2 (PLUS = c)) by done. }
           rewrite Hmiss2, Hmiss1 by done. do 3 f_equal. apply (IH 0). lia.
Qed.

(** ** A second run of the normalizer *)

(** The expansion of a degree unit keeps the degree signs of the text. *)
Lemma str_replace_keeps_head (c : N) (old new s : str) :
  c ∈ s → c ∈ str_replace (c :: old) (c :: new) s.
Proof.
  pose proof (str_replace_replaced (c :: old) (c :: new) s ltac:(done)) as H.
  induction H as [| s r Hs Hhit Hrep IH | x s r Hmiss Hrep IH]; intros Hc.
  - done.
  - apply list_elem_of_here.
  - apply elem_of_cons in Hc as [-> | Hc]; [apply list_elem_of_here |].
    apply list_elem_of_further. auto.
Qed.

Lemma str_replace_two_spaces_absent (r new s : str) :
  no_double_space s → str_replace (SP :: SP :: r) new s = s.
Proof.
  intros Hs.
  pose proof (str_replace_replaced (SP :: SP :: r) new s ltac:(done)) as H.
  induction H as [| s t Hne Hhit Hrep IH | x s t Hmiss Hrep IH].
  - done.
  - by rewrite (no_double_space_startswith r s) in Hhit.
  - f_equal. apply IH. by apply no_double_space_cons in Hs as [_ ?].
Qed.

(** On a trimmed text without percent sign, asterisk, carriage return,
    degree sign and run of spaces the substitutions change nothing. *)
Lemma substitutions_id (s : str) :
  PERCENT ∉ s → STAR ∉ s → CR ∉ s → DEG ∉ s → no_double_space s → trimmed s →
  substitutions s = s.
Proof.
  intros Hp Hs Hc Hd Hn Ht. unfold substitutions. cbv zeta.
  rewrite (str_replace_absent PERCENT [] _ s Hp).
  rewrite (str_replace_absent STAR [] _ s Hs).
  rewrite (str_replace_two_spaces_absent (lit "+") _ s Hn).
  rewrite (str_replace_absent CR [] _ s Hc).
  rewrite (trimmed_strip s Ht).
  rewrite re_sub_collapse, (collapse_spaces_id s Hn).
  by rewrite !(str_replace_absent DEG _ _ s Hd).
Qed.

(** A result without degree sign is the text as the collapse of spaces
    left it. *)
Lemma substitutions_trimmed (m : str) :
  DEG ∉ substitutions m → trimmed (substitutions m).
Proof.
  unfold substitutions. cbv zeta.
  set (z := re_sub [Plus SP] [SP] _). intros Hd.
  assert (DEG ∉ z) as Hz.
  { intros H. apply Hd.
    apply (str_replace_keeps_head DEG), (str_replace_keeps_head DEG),
      (str_replace_keeps_head DEG), H. }
  rewrite !(str_replace_absent DEG _ _ z Hz).
  unfold z. rewrite re_sub_collapse.
  apply collapse_spaces_trimmed, strip_trimmed.
Qed.

(** The blank line that the markdown pass makes of a line of asterisks is
    removed only by a second run. *)
Lemma clean_text_for_tts_blank_line (linesep : str)
    (demoji_replace : str → str) (fuel : nat) :
  let text := lit "a" ++ LF :: lit "**" ++ LF :: lit "b" in
  linesep = [LF] →
  demoji_replace text = text →
  demoji_replace (lit "a" ++ LF :: lit "b") = lit "a" ++ LF :: lit "b" →
  clean_text_for_tts linesep demoji_replace (1 + fuel) text
  = Some (lit "a" ++ LF :: LF :: lit "b") ∧
  clean_text_for_tts linesep demoji_replace (1 + fuel)
    (lit "a" ++ LF :: LF :: lit "b")
  = Some (lit "a" ++ LF :: lit "b").
Proof.
  intros text -> H1 H2. split.
  - erewrite clean_text_for_tts_run;
      [ | vm_compute; reflexivity | eassumption | vm_compute; reflexivity ].
    vm_compute. reflexivity.
  - apply clean_text_for_tts_more_fuel. unfold clean_text_for_tts.
    replace (drop_blank_lines [LF] (lit "a" ++ LF :: LF :: lit "b"))
      with (lit "a" ++ LF :: lit "b") by (vm_compute; reflexivity).
    rewrite H2. vm_compute. reflexivity.
Qed.

(** C6, as stated, fails: the result for the three lines [a], [**], [b] has
    no marker and no degree sign, and a second run changes it. *)
Lemma clean_text_for_tts_not_idempotent :
  let text := lit "a" ++ LF :: lit "**" ++ LF :: lit "b" in
  let out := lit "a" ++ LF :: LF :: lit "b" in
  clean_text_for_tts [LF] strip_pictographs 1 text = Some out ∧
  no_match (lit "**") out ∧ no_match (lit "*") out ∧ (DEG ∉ out) ∧
  clean_text_for_tts [LF] strip_pictographs 1 out
  = Some (lit "a" ++ LF :: lit "b") ∧
  lit "a" ++ LF :: lit "b" ≠ out.
Proof.
  intros text out.
  destruct (clean_text_for_tts_blank_line [LF] strip_pictographs 0)
    as [H1 H2]; [done | done | done |].
  split_and!; [exact H1 | | | | exact H2 | done].
  - apply (no_match_absent STAR); by_evaluation.
  - apply (no_match_absent STAR); by_evaluation.
  - by_evaluation.
Qed.

(** A second run is a no-op on a result without degree sign that the first
    two steps leave as it is. *)
Lemma clean_text_for_tts_second_run (linesep : str)
    (demoji_replace : str → str) (fuel : nat) (text out : str) :
  clean_text_for_tts linesep demoji_replace fuel text = Some out →
  DEG ∉ out →
  drop_blank_lines linesep out = out →
  demoji_replace out = out →
  clean_text_for_tts linesep demoji_replace fuel out = Some out.
Proof.
  intros Hrun Hdeg Hblank Hemoji.
  unfold clean_text_for_tts in Hrun.
  destruct (remove_markdown_styles fuel _) as [m|]; [|done].
  injection Hrun as <-.
  destruct (substitutions_free m) as (Hp & Hs & Hc & Hn).
  pose proof (substitutions_trimmed m Hdeg) as Ht.
  unfold clean_text_for_tts. rewrite Hblank, Hemoji.
  rewrite remove_markdown_styles_no_star by done. simpl.
  by rewrite substitutions_id.
Qed.

(** ** What the markdown pass keeps *)

Lemma filter_delim (k : nat) : filter (λ c, c ≠ STAR) (delim k) = [].
Proof.
  unfold delim. induction k as [|k IH]; [done |]. simpl.
  rewrite filter_cons_False by (intros ?; done). exact IH.
Qed.

Lemma strip_first_delim_keeps (k : nat) (s r : str) :
  strip_first (delim k) s r →
  filter (λ c, c ≠ STAR) r = filter (λ c, c ≠ STAR) s ∧ r `sublist_of` s.
Proof.
  intros [pre inner post _ _ _]. split.
  - by rewrite !filter_app, filter_delim.
  - apply sublist_app; [done |]. apply sublist_inserts_l.
    apply sublist_app; [done |]. apply sublist_inserts_l. done.
Qed.

Lemma exhausts_delim_keeps (k : nat) (s out : str) :
  exhausts (delim k) s out →
  filter (λ c, c ≠ STAR) out = filter (λ c, c ≠ STAR) s ∧ out `sublist_of` s.
Proof.
  intros [Hrtc _]. induction Hrtc as [s | s s' out Hstep _ [IH1 IH2]]; [done |].
  destruct (strip_first_delim_keeps _ _ _ Hstep) as [H1 H2].
  split; [congruence | by etrans].
Qed.

(** What [remove_markdown_styles] returns with some fuel is what it returns
    with enough fuel. *)
Lemma remove_markdown_styles_Some (fuel : nat) (text out : str) :
  remove_markdown_styles fuel text = Some out →
  ∃ mid, exhausts (delim 2) text mid ∧ exhausts (delim 1) mid out.
Proof.
  intros H.
  destruct (remove_markdown_styles_runs text)
    as (mid & out' & Hrun & Hbold & Hitalic & _).
  apply (remove_markdown_styles_more_fuel _ (length text)) in H.
  rewrite Hrun in H by lia. injection H as ->. eauto.
Qed.

(** X1.  The markdown pass only takes asterisks away: its result is the text
    with some asterisks deleted, every other character kept in its place in
    the order. *)
Theorem remove_markdown_styles_keeps_content (fuel : nat) (text out : str) :
  remove_markdown_styles fuel text = Some out →
  filter (λ c, c ≠ STAR) out = filter (λ c, c ≠ STAR) text ∧
  out `sublist_of` text.
Proof.
  intros H. apply remove_markdown_styles_Some in H as (mid & H2 & H1).
  apply exhausts_delim_keeps in H2 as [? ?].
  apply exhausts_delim_keeps in H1 as [? ?].
  split; [congruence | by etrans].
Qed.

Lemma remove_markdown_styles_keeps_content_witness :
  filter (λ c, c ≠ STAR) (lit "a b c")
  = filter (λ c, c ≠ STAR) (lit "**a** ***b** c*") ∧
  lit "a b c" `sublist_of` lit "**a** ***b** c*".
Proof.
  apply (remove_markdown_styles_keeps_content 3). vm_compute. reflexivity.
Defined.

(** ** The texts the markdown pass leaves alone *)

(** A match of the bold pattern starts with a match of the italic one. *)
Lemma no_match_italic_bold (s : str) :
  no_match (delim 1) s → no_match (delim 2) s.
Proof.
  intros H pre inner post _ ->.
  by apply (H pre [] (inner ++ delim 2 ++ post)); [apply not_elem_of_nil |].
Qed.

Lemma remove_markdown_styles_fixed (fuel : nat) (text : str) :
  no_match (delim 1) text → remove_markdown_styles fuel text = Some text.
Proof.
  intros H. rewrite remove_markdown_styles_unfold.
  rewrite while_match_unfold.
  rewrite (proj2 (re_search_pair_None (delim 2) text))
    by (by apply no_match_italic_bold).
  simpl. rewrite while_match_unfold.
  by rewrite (proj2 (re_search_pair_None (delim 1) text)).
Qed.

(** X17.  The markdown pass returns a text as it is exactly when no line of
    it has two asterisks, that is when the italic pattern has no match in
    it: an asterisk alone on its line is not a marker. *)
Theorem remove_markdown_styles_fixed_points (fuel : nat) (text : str) :
  remove_markdown_styles fuel text = Some text ↔ no_match (lit "*") text.
Proof.
  split; [| apply remove_markdown_styles_fixed].
  intros H. by apply remove_markdown_styles_Some in H as (mid & _ & [_ ?]).
Qed.

(** X18.  The markdown pass is idempotent: on its own result it returns that
    result, with any fuel. *)
Theorem remove_markdown_styles_idempotent (fuel fuel' : nat) (text out : str) :
  remove_markdown_styles fuel text = Some out →
  remove_markdown_styles fuel' out = Some out.
Proof.
  intros H. apply remove_markdown_styles_fixed.
  by apply remove_markdown_styles_Some in H as (mid & _ & [_ ?]).
Qed.

Lemma remove_markdown_styles_idempotent_witness :
  remove_markdown_styles 0 (lit "a b *") = Some (lit "a b *").
Proof.
  apply (remove_markdown_styles_idempotent 2 0 (lit "**a** *b* *")).
  vm_compute. reflexivity.
Defined.

(** ** The removal of blank lines *)

Lemma splitlines_from_break_free (after_cr : bool) (cur s : str) :
  Forall (λ c, is_linebreak c = false) cur →
  Forall (Forall (λ c, is_linebreak c = false)) (splitlines_from after_cr cur s).
Proof.
  revert after_cr cur. induction s as [|c s IH]; intros after_cr cur Hcur; simpl.
  - destruct cur; [done |]. repeat constructor. by apply Forall_reverse.
  - destruct (after_cr && bool_decide (c = LF)); [by apply IH |].
    destruct (is_linebreak c) eqn:E.
    + constructor; [by apply Forall_reverse | by apply IH].
    + apply IH. by constructor.
Qed.

Lemma splitlines_from_line (l cur rest : str) :
  Forall (λ c, is_linebreak c = false) l →
  splitlines_from false cur (l ++ rest)
  = splitlines_from false (reverse l ++ cur) rest.
Proof.
  revert cur. induction l as [|c l IH]; intros cur Hl; [done |].
  apply Forall_cons in Hl as [Hc Hl]. simpl. rewrite Hc, IH by done.
  by rewrite reverse_cons, <- (assoc_L (++)).
Qed.

Lemma splitlines_single_line (l : str) :
  l ≠ [] → Forall (λ c, is_linebreak c = false) l → splitlines l = [l].
Proof.
  intros Hne Hl. unfold splitlines.
  rewrite <- (app_nil_r l) at 1. rewrite splitlines_from_line by done.
  rewrite app_nil_r. simpl.
  destruct (reverse l) eqn:E.
  - apply (f_equal reverse) in E. rewrite reverse_involutive in E. done.
  - by rewrite <- E, reverse_involutive.
Qed.

Lemma splitlines_from_LF (cur rest : str) :
  splitlines_from false cur (LF :: rest)
  = reverse cur :: splitlines_from false [] rest.
Proof. reflexivity. Qed.

Lemma splitlines_from_CR_LF (cur rest : str) :
  splitlines_from false cur (CR :: LF :: rest)
  = reverse cur :: splitlines_from false [] rest.
Proof. reflexivity. Qed.

(** Splitting what [join] made of non-empty lines gives the lines back, for
    the line separators LF and CR LF. *)
Lemma splitlines_join (linesep : str) (lines : list str) :
  linesep = [LF] ∨ linesep = [CR; LF] →
  Forall (λ l, l ≠ [] ∧ Forall (λ c, is_linebreak c = false) l) lines →
  splitlines (str_join linesep lines) = lines.
Proof.
  intros Hsep. induction 1 as [|l ls [Hne Hl] Hls IH]; [done |].
  destruct ls as [|l' ls]; [by apply splitlines_single_line |].
  change (str_join linesep (l :: l' :: ls))
    with (l ++ linesep ++ str_join linesep (l' :: ls)).
  unfold splitlines in *. rewrite splitlines_from_line by done.
  rewrite app_nil_r.
  destruct Hsep as [-> | ->]; cbn [app];
    rewrite ?splitlines_from_LF, ?splitlines_from_CR_LF, reverse_involutive;
    by rewrite IH.
Qed.

Lemma nonblank_lines (s : str) :
  Forall (λ l, l ≠ [] ∧ Forall (λ c, is_linebreak c = false) l)
    (filter (λ l, l ≠ []) (splitlines s)).
Proof.
  apply Forall_forall. intros l [Hne Hl]%list_elem_of_filter. split; [done |].
  pose proof (splitlines_from_break_free false [] s (Forall_nil_2 _)) as H.
  rewrite Forall_forall in H. by apply H.
Qed.

(** X2.  On a platform whose line separator is LF or CR LF, the lines of the
    text without its blank lines are the non-empty lines of the text, in
    their order; so removing the blank lines twice is removing them once. *)
Theorem drop_blank_lines_lines (linesep s : str) :
  linesep = [LF] ∨ linesep = [CR; LF] →
  splitlines (drop_blank_lines linesep s)
  = filter (λ l, l ≠ []) (splitlines s) ∧
  drop_blank_lines linesep (drop_blank_lines linesep s)
  = drop_blank_lines linesep s.
Proof.
  intros Hsep.
  assert (splitlines (drop_blank_lines linesep s)
          = filter (λ l, l ≠ []) (splitlines s)) as Hlines
    by apply (splitlines_join _ _ Hsep), nonblank_lines.
  split; [done |].
  unfold drop_blank_lines at 1. rewrite Hlines. unfold drop_blank_lines.
  f_equal. apply list_filter_filter_l. done.
Qed.

Lemma drop_blank_lines_lines_witness :
  let s := lit "one" ++ CR :: LF :: LF :: lit "two" ++ [11%N; LF] in
  splitlines (drop_blank_lines [LF] s)
  = filter (λ l, l ≠ []) (splitlines s) ∧
  drop_blank_lines [LF] (drop_blank_lines [LF] s) = drop_blank_lines [LF] s.
Proof. apply drop_blank_lines_lines. by left. Defined.

Lemma elem_of_str_join (c : N) (sep : str) (parts : list str) :
  c ∈ str_join sep parts → c ∈ sep ∨ ∃ p, p ∈ parts ∧ c ∈ p.
Proof.
  induction parts as [|p ps IH]; [by intros ?%elem_of_nil |].
  destruct ps as [|p' ps].
  - intros H. right. exists p. split; [apply list_elem_of_here | done].
  - change (str_join sep (p :: p' :: ps))
      with (p ++ sep ++ str_join sep (p' :: ps)).
    rewrite !elem_of_app. intros [H | [H | H]]; [| by left |].
    + right. exists p. split; [apply list_elem_of_here | done].
    + destruct (IH H) as [? | (q & Hq & Hc)]; [by left |].
      right. exists q. split; [by apply list_elem_of_further | done].
Qed.

(** X3.  The removal of blank lines leaves no line boundary but the line
    separator of the platform: a carriage return, a form feed or a Unicode
    line separator of the text is in the result only if the platform's
    separator has it. *)
Theorem drop_blank_lines_boundaries (linesep s : str) (c : N) :
  c ∈ drop_blank_lines linesep s → is_linebreak c = true → c ∈ linesep.
Proof.
  intros Hc Hbreak. unfold drop_blank_lines in Hc.
  apply elem_of_str_join in Hc as [? | (l & Hl & Hc)]; [done |].
  pose proof (nonblank_lines s) as H. rewrite Forall_forall in H.
  destruct (H l Hl) as [_ Hfree]. rewrite Forall_forall in Hfree.
  rewrite (Hfree c Hc) in Hbreak. done.
Qed.

Lemma drop_blank_lines_boundaries_witness :
  LF ∈ [LF].
Proof.
  apply (drop_blank_lines_boundaries [LF] (lit "a" ++ CR :: lit "b") LF);
    [by_evaluation | reflexivity].
Defined.

(** A text of one line is left as it is. *)
Lemma drop_blank_lines_single_line (linesep s : str) :
  Forall (λ c, is_linebreak c = false) s → drop_blank_lines linesep s = s.
Proof.
  intros Hs. unfold drop_blank_lines. destruct s as [|c s]; [done |].
  rewrite splitlines_single_line by done.
  by rewrite filter_cons_True.
Qed.

(** ** The ends of the result *)

Lemma replaced_nil_inv (old new s : str) :
  new ≠ [] → replaced old new s [] → s = [].
Proof.
  intros Hne H. inversion H as [| s' r Hs Hhit Hrep E | ]; [done |].
  by destruct new.
Qed.

Lemma last_drop_Some (k : nat) (s : str) (c : N) :
  last (drop k s) = Some c → last s = Some c.
Proof.
  intros H. rewrite <- (take_drop k s), last_app. by rewrite H.
Qed.

(** A replacement whose [new] starts like [old] and ends with no white
    space keeps the first character of the text, and keeps its end free of
    white space. *)
Lemma replaced_ends (old new s r : str) :
  old ≠ [] → head new = head old →
  (∀ c, last new = Some c → is_space c = false) →
  replaced old new s r →
  head r = head s ∧
  ((∀ c, last s = Some c → is_space c = false) →
   ∀ c, last r = Some c → is_space c = false).
Proof.
  intros Hold Hhead Hlast.
  assert (new ≠ []) as Hnew by (destruct old, new; done).
  induction 1 as [| s r Hs Hhit Hrep [IHh IHl] | x s r Hmiss Hrep [IHh IHl]].
  - done.
  - split.
    + apply startswith_true in Hhit as [t ->].
      destruct old, new; simplify_eq/=; done.
    + intros Hs' c. rewrite last_app.
      destruct (last r) as [y|] eqn:E; [|by apply Hlast].
      intros [= ->]. apply IHl; [|done].
      intros c' Hc'. by apply Hs', (last_drop_Some (length old)).
  - split; [done |].
    intros Hs' c. rewrite last_cons.
    destruct (last r) as [y|] eqn:E.
    + intros [= ->]. apply IHl; [|done].
      intros c' Hc'. apply Hs'. rewrite last_cons. by rewrite Hc'.
    + intros [= <-]. apply last_None in E as ->.
      apply (replaced_nil_inv _ _ _ Hnew) in Hrep as ->. by apply Hs'.
Qed.

Lemma str_replace_trimmed (c : N) (old new s : str) :
  is_space c = false →
  (∀ y, last (c :: new) = Some y → is_space y = false) →
  trimmed s → trimmed (str_replace (c :: old) (c :: new) s).
Proof.
  intros Hc Hlast [Hh Hl]%trimmed_ends. apply trimmed_ends.
  assert (c :: old ≠ []) as Hne by done.
  destruct (replaced_ends (c :: old) (c :: new) s _ Hne eq_refl Hlast
              (str_replace_replaced _ _ s Hne)) as [Eh El].
  split; [by rewrite Eh | by apply El].
Qed.

Lemma substitutions_ends (m : str) : trimmed (substitutions m).
Proof.
  unfold substitutions. cbv zeta.
  repeat (apply str_replace_trimmed;
          [reflexivity | by intros y [= <-] |]).
  rewrite re_sub_collapse. apply collapse_spaces_trimmed, strip_trimmed.
Qed.

(** X4.  What [clean_text_for_tts] returns neither starts nor ends with
    white space: [strip()] would change nothing in it. *)
Theorem clean_text_for_tts_output_trimmed (linesep : str)
    (demoji_replace : str → str) (fuel : nat) (text out : str) :
  clean_text_for_tts linesep demoji_replace fuel text = Some out →
  (∀ c, head out = Some c → is_space c = false) ∧
  (∀ c, last out = Some c → is_space c = false) ∧
  strip out = out.
Proof.
  unfold clean_text_for_tts. intros H.
  destruct (remove_markdown_styles fuel _) as [m|]; [|done].
  injection H as <-.
  pose proof (substitutions_ends m) as Ht.
  destruct (proj1 (trimmed_ends _) Ht) as [? ?].
  split_and!; [done | done | by apply trimmed_strip].
Qed.

Lemma clean_text_for_tts_output_trimmed_witness :
  let out := lit "70" ++ DEG :: lit " Fahrenheit" in
  (∀ c, head out = Some c → is_space c = false) ∧
  (∀ c, last out = Some c → is_space c = false) ∧
  strip out = out.
Proof.
  apply (clean_text_for_tts_output_trimmed [LF] strip_pictographs 0
           (lit "  70" ++ DEG :: lit "F ")).
  vm_compute. reflexivity.
Defined.

(** ** The degree units *)

Lemma follows_cons (a x c : N) (s : str) :
  follows a x (c :: s) ↔ (c = a ∧ head s = Some x) ∨ follows a x s.
Proof.
  unfold follows. split.
  - intros ([|c' pre] & post & E); simplify_eq/=; [by left |].
    right. eauto.
  - intros [[-> Hh] | (pre & post & ->)].
    + destruct s as [|y s]; simplify_eq/=. by exists [], s.
    + by exists (c :: pre), post.
Qed.

Lemma follows_elem_of (a x : N) (s : str) : follows a x s → a ∈ s.
Proof. intros (pre & post & ->). rewrite elem_of_app, elem_of_cons. auto. Qed.

Lemma follows_drop (a x : N) (k : nat) (s : str) :
  follows a x (drop k s) → follows a x s.
Proof.
  intros (pre & post & E). exists (take k s ++ pre), post.
  by rewrite <- (take_drop k s) at 1; rewrite E, <- (assoc_L (++)).
Qed.

Lemma follows_app (a x : N) (l1 l2 : str) :
  follows a x (l1 ++ l2) →
  follows a x l1 ∨ (last l1 = Some a ∧ head l2 = Some x) ∨ follows a x l2.
Proof.
  induction l1 as [|c l1 IH]; [by auto |].
  cbn [app]. rewrite follows_cons. intros [[-> Hh] | H].
  - destruct l1 as [|y l1]; [by auto |].
    left. apply follows_cons. by left.
  - destruct (IH H) as [? | [[Hl ?] | ?]]; [| | by auto].
    + left. apply follows_cons. by right.
    + right; left. split; [|done]. rewrite last_cons. by rewrite Hl.
Qed.

(** Expanding the unit [b] after [a] makes no [a] followed by a character
    that was not after it before, and leaves no [a] followed by [b]. *)
Lemma replaced_follows (a b y x : N) (new s r : str) :
  a ∉ new → head new = Some y → x ≠ y →
  replaced [a; b] (a :: new) s r →
  head r = head s ∧ (follows a x r → follows a x s ∧ x ≠ b).
Proof.
  intros Ha Hy Hx.
  assert (last (a :: new) ≠ Some a) as Hlast.
  { rewrite last_cons. destruct (last new) as [z|] eqn:E.
    - intros [= ->]. apply Ha. by eapply last_Some_elem_of.
    - apply last_None in E as ->. done. }
  induction 1 as [| s r Hs Hhit Hrep [IHh IHf] | c s r Hmiss Hrep [IHh IHf]].
  - split; [done |]. by intros ([|? ?] & ? & ?).
  - apply startswith_true in Hhit as [t ->]. split; [done |].
    intros [Hf | [[Hl _] | Hf]]%follows_app.
    + apply follows_cons in Hf as [[_ Hh] | Hf]; [congruence |].
      by apply follows_elem_of in Hf.
    + done.
    + destruct (IHf Hf) as [Hs' ?]. split; [|done].
      by apply (follows_drop a x 2).
  - split; [done |].
    intros [[-> Hh] | Hf]%follows_cons.
    + rewrite IHh in Hh. split; [apply follows_cons; by left |].
      intros ->. destruct s as [|z s]; simplify_eq/=.
      by rewrite !bool_decide_eq_true_2 in Hmiss.
    + destruct (IHf Hf) as [? ?]. split; [|done].
      apply follows_cons. by right.
Qed.

Lemma str_replace_follows (a b y x : N) (new s : str) :
  a ∉ new → head new = Some y → x ≠ y →
  follows a x (str_replace [a; b] (a :: new) s) → follows a x s ∧ x ≠ b.
Proof.
  intros Ha Hy Hx Hf.
  assert ([a; b] ≠ []) as Hne by done.
  destruct (replaced_follows a b y x new s _ Ha Hy Hx
              (str_replace_replaced _ _ s Hne)) as [_ H].
  by apply H.
Qed.

Lemma substitutions_degree_units (m : str) (x : N) :
  x ∈ lit "FCK" → ¬ follows DEG x (substitutions m).
Proof.
  unfold substitutions. cbv zeta. intros Hx Hf.
  assert (x ≠ SP) as Hsp by (intros ->; absurd_elem Hx).
  apply (str_replace_follows DEG _ SP) in Hf as [Hf HK];
    [| by_evaluation | done | done].
  apply (str_replace_follows DEG _ SP) in Hf as [Hf HC];
    [| by_evaluation | done | done].
  apply (str_replace_follows DEG _ SP) in Hf as [Hf HF];
    [| by_evaluation | done | done].
  repeat (apply elem_of_cons in Hx as [-> | Hx]; [done |]).
  by apply elem_of_nil in Hx.
Qed.

(** X5.  What [clean_text_for_tts] returns has no degree sign with an F, a
    C or a K right after it: every degree unit is expanded. *)
Theorem clean_text_for_tts_degree_units (linesep : str)
    (demoji_replace : str → str) (fuel : nat) (text out : str) (x : N) :
  clean_text_for_tts linesep demoji_replace fuel text = Some out →
  x ∈ lit "FCK" → ∀ pre post, out ≠ pre ++ DEG :: x :: post.
Proof.
  unfold clean_text_for_tts. intros H Hx pre post E.
  destruct (remove_markdown_styles fuel _) as [m|]; [|done].
  injection H as <-.
  apply (substitutions_degree_units m x Hx). by exists pre, post.
Qed.

Lemma clean_text_for_tts_degree_units_witness :
  clean_text_for_tts [LF] strip_pictographs 0
    (DEG :: DEG :: lit "C" ++ DEG :: lit "K")
  = Some (DEG :: DEG :: lit " Celsius" ++ DEG :: lit " Kelvin") ∧
  ∀ pre post,
    DEG :: DEG :: lit " Celsius" ++ DEG :: lit " Kelvin"
    ≠ pre ++ DEG :: 67%N :: post.
Proof.
  split; [vm_compute; reflexivity |].
  apply (clean_text_for_tts_degree_units [LF] strip_pictographs 0
           (DEG :: DEG :: lit "C" ++ DEG :: lit "K"));
    [vm_compute; reflexivity | by_evaluation].
Defined.

(** ** Texts the normalizer has nothing to do on *)

(** A text without one of the characters of [old] has no occurrence of
    [old]. *)
Lemma str_replace_no_occurrence (c : N) (old new s : str) :
  c ∈ old → c ∉ s → str_replace old new s = s.
Proof.
  intros Hold Hs.
  assert (old ≠ []) as Hne by (intros ->; by apply elem_of_nil in Hold).
  pose proof (str_replace_replaced old new s Hne) as H.
  induction H as [| s r Hne' Hhit Hrep IH | x s r Hmiss Hrep IH].
  - done.
  - apply startswith_true in Hhit as [t ->]. destruct Hs.
    apply elem_of_app. by left.
  - f_equal. apply IH. by apply not_elem_of_cons in Hs as [_ ?].
Qed.

Lemma strip_fixed_trimmed (s : str) : strip s = s → trimmed s.
Proof. intros <-. apply strip_trimmed. Qed.

(** X6.  A single line of plain prose comes back as it is: a text without
    line boundary, percent sign, asterisk and degree sign, with no two
    spaces in a row and no white space at its ends, that the emoji stripper
    leaves alone, is its own normalization, with any fuel. *)
Theorem clean_text_for_tts_plain (linesep : str) (demoji_replace : str → str)
    (fuel : nat) (text : str) :
  Forall (λ c, is_linebreak c = false) text →
  PERCENT ∉ text → STAR ∉ text → DEG ∉ text →
  no_double_space text → strip text = text →
  demoji_replace text = text →
  clean_text_for_tts linesep demoji_replace fuel text = Some text.
Proof.
  intros Hline Hp Hs Hd Hn Ht He.
  assert (CR ∉ text) as Hc.
  { intros H. rewrite Forall_forall in Hline. by apply Hline in H. }
  unfold clean_text_for_tts.
  rewrite drop_blank_lines_single_line, He by done.
  rewrite remove_markdown_styles_no_star by done. simpl.
  by rewrite substitutions_id by auto using strip_fixed_trimmed.
Qed.

Lemma clean_text_for_tts_plain_witness :
  clean_text_for_tts [LF] strip_pictographs 0 (lit "Hello, world + you.")
  = Some (lit "Hello, world + you.").
Proof.
  apply clean_text_for_tts_plain;
    [ by_evaluation | by_evaluation | by_evaluation | by_evaluation
    | apply collapse_spaces_fixed; reflexivity | reflexivity | reflexivity ].
Defined.

Lemma lstrip_all_space (s : str) :
  Forall (λ c, is_space c = true) s → lstrip s = [].
Proof. induction 1 as [|c s Hc _ IH]; [done |]. simpl. by rewrite Hc. Qed.

Lemma clean_text_for_tts_white_space (linesep : str)
    (demoji_replace : str → str) (fuel : nat) (text : str) :
  Forall (λ c, is_space c = true ∧ is_linebreak c = false) text →
  demoji_replace text = text →
  clean_text_for_tts linesep demoji_replace fuel text = Some [].
Proof.
  intros Hall He.
  assert (∀ c, is_space c = false → c ∉ text) as Hnot.
  { intros c Hc H. rewrite Forall_forall in Hall.
    destruct (Hall c H) as [Hsp _]. congruence. }
  unfold clean_text_for_tts.
  rewrite drop_blank_lines_single_line, He
    by (eapply Forall_impl; [done | by intros c [_ ?]]).
  rewrite remove_markdown_styles_no_star by (by apply Hnot). simpl.
  f_equal. unfold substitutions. cbv zeta.
  rewrite (str_replace_no_occurrence PERCENT [PERCENT] _ text)
    by (by_evaluation || by apply Hnot).
  rewrite (str_replace_no_occurrence STAR [STAR] _ text)
    by (by_evaluation || by apply Hnot).
  rewrite (str_replace_no_occurrence PLUS (lit "  +") _ text)
    by (by_evaluation || by apply Hnot).
  rewrite (str_replace_no_occurrence CR [CR] _ text).
  - unfold strip. rewrite lstrip_all_space; [done |].
    eapply Forall_impl; [done | by intros c [? _]].
  - by_evaluation.
  - intros H. rewrite Forall_forall in Hall. by destruct (Hall CR H).
Qed.

(** X7.  A line of white space only is normalized to the empty string. *)
Theorem clean_text_for_tts_blank (linesep : str) (demoji_replace : str → str)
    (fuel : nat) (text : str) :
  Forall (λ c, is_space c = true ∧ is_linebreak c = false) text →
  demoji_replace text = text →
  clean_text_for_tts linesep demoji_replace fuel text = Some [].
Proof. apply clean_text_for_tts_white_space. Qed.

Lemma clean_text_for_tts_blank_witness :
  clean_text_for_tts [LF] strip_pictographs 0 [SP; 9%N; SP; 160%N] = Some [].
Proof.
  apply clean_text_for_tts_blank;
    [repeat constructor | reflexivity].
Defined.

(** ** The collapse of spaces *)

Lemma collapse_spaces_sublist (s : str) : collapse_spaces s `sublist_of` s.
Proof.
  induction s as [|c s IH]; [done |]. simpl.
  destruct (decide (c = SP)) as [-> | ?]; [|by constructor].
  destruct (decide (head s = Some SP)); by constructor.
Qed.

Lemma collapse_spaces_filter (s : str) :
  filter (λ c, c ≠ SP) (collapse_spaces s) = filter (λ c, c ≠ SP) s.
Proof.
  induction s as [|c s IH]; [done |]. simpl.
  destruct (decide (c = SP)) as [-> | ?].
  - rewrite (filter_cons_False _ SP s) by (intros ?; done).
    destruct (decide (head s = Some SP)); [done |].
    by rewrite filter_cons_False by (intros ?; done).
  - by rewrite !filter_cons_True, IH by done.
Qed.

(** X8.  [re.sub(" +", " ", text)] only deletes spaces: every other
    character stays, in order; the result has no two spaces in a row, and a
    text that has none is not changed. *)
Theorem re_sub_spaces (s : str) :
  re_sub [Plus SP] [SP] s `sublist_of` s ∧
  filter (λ c, c ≠ SP) (re_sub [Plus SP] [SP] s) = filter (λ c, c ≠ SP) s ∧
  no_double_space (re_sub [Plus SP] [SP] s) ∧
  (no_double_space s → re_sub [Plus SP] [SP] s = s).
Proof.
  rewrite re_sub_collapse. split_and!.
  - apply collapse_spaces_sublist.
  - apply collapse_spaces_filter.
  - apply collapse_spaces_no_double_space.
  - apply collapse_spaces_id.
Qed.

Lemma re_sub_spaces_witness :
  re_sub [Plus SP] [SP] (lit "a b  c") `sublist_of` lit "a b  c" ∧
  re_sub [Plus SP] [SP] (lit "a b") = lit "a b".
Proof.
  split.
  - apply (re_sub_spaces (lit "a b  c")).
  - apply (re_sub_spaces (lit "a b")).
    apply collapse_spaces_fixed. reflexivity.
Defined.

(** ** A second run on a result of several lines *)

(** The characters of the lines are characters of the text. *)
Lemma splitlines_from_elem_of (after_cr : bool) (cur s l : str) (c : N) :
  l ∈ splitlines_from after_cr cur s → c ∈ l → c ∈ cur ∨ c ∈ s.
Proof.
  revert after_cr cur. induction s as [|x s IH]; intros after_cr cur; simpl.
  - destruct cur as [|y cur]; [by intros ?%elem_of_nil |].
    intros ->%list_elem_of_singleton. rewrite elem_of_reverse. auto.
  - destruct (after_cr && bool_decide (x = LF)).
    { intros Hl Hc. destruct (IH _ _ Hl Hc); [by left |].
      right. by apply list_elem_of_further. }
    destruct (is_linebreak x).
    + intros [-> | Hl]%elem_of_cons Hc.
      * rewrite elem_of_reverse in Hc. by left.
      * destruct (IH _ _ Hl Hc) as [?%elem_of_nil | ?]; [done |].
        right. by apply list_elem_of_further.
    + intros Hl Hc. destruct (IH _ _ Hl Hc) as [[-> | ?]%elem_of_cons | ?].
      * right. apply list_elem_of_here.
      * by left.
      * right. by apply list_elem_of_further.
Qed.

Lemma drop_blank_lines_elem_of (linesep s : str) (c : N) :
  c ∈ drop_blank_lines linesep s → c ∈ linesep ∨ c ∈ s.
Proof.
  unfold drop_blank_lines. intros [? | (l & Hl & Hc)]%elem_of_str_join;
    [by left |].
  apply list_elem_of_filter in Hl as [_ Hl].
  destruct (splitlines_from_elem_of _ _ _ _ _ Hl Hc) as [?%elem_of_nil | ?];
    [done | by right].
Qed.

Lemma drop_blank_lines_breaks (linesep s : str) (c : N) :
  c ∈ drop_blank_lines linesep s → is_linebreak c = true → c ∈ linesep.
Proof.
  intros Hc Hbreak. unfold drop_blank_lines in Hc.
  apply elem_of_str_join in Hc as [? | (l & Hl & Hc)]; [done |].
  pose proof (nonblank_lines s) as H. rewrite Forall_forall in H.
  destruct (H l Hl) as [_ Hfree]. rewrite Forall_forall in Hfree.
  rewrite (Hfree c Hc) in Hbreak. done.
Qed.

(** The characters the substitutions put in a text. *)
Lemma substitutions_elem_of (m : str) (c : N) :
  c ∈ substitutions m →
  c ∈ m ∨ c ∈ DEG :: lit " percent-FahrenheitCelsiusKelvin".
Proof.
  unfold substitutions. cbv zeta. intros H.
  assert (∀ new, new ⊆ DEG :: lit " percent-FahrenheitCelsiusKelvin" →
                 c ∈ new →
                 c ∈ m ∨ c ∈ DEG :: lit " percent-FahrenheitCelsiusKelvin")
    as Hnew by (intros new Hsub ?; right; by apply Hsub).
  do 3 (apply str_replace_elem_of in H as [H | H];
        [| revert H; apply Hnew; by_evaluation | done]).
  rewrite re_sub_collapse in H.
  apply collapse_spaces_elem_of, strip_elem_of in H.
  apply str_replace_elem_of in H as [H | H]; [| by apply elem_of_nil in H | done].
  do 3 (apply str_replace_elem_of in H as [H | H];
        [| revert H; apply Hnew; by_evaluation | done]).
  by left.
Qed.

(** *** Joining the lines again *)

Lemma splitlines_from_nonempty (cur s : str) :
  cur ≠ [] ∨ s ≠ [] → splitlines_from false cur s ≠ [].
Proof.
  revert cur. induction s as [|x s IH]; intros cur H; simpl.
  - destruct cur; [by destruct H | done].
  - destruct (is_linebreak x); [done |]. apply IH. by left.
Qed.

Lemma str_join_cons (sep p : str) (rest : list str) :
  rest ≠ [] → str_join sep (p :: rest) = p ++ sep ++ str_join sep rest.
Proof. by destruct rest. Qed.

(** A text whose line boundaries are line feeds and that does not end with
    one is its lines joined by line feeds. *)
Lemma str_join_splitlines_from (cur s : str) :
  (∀ c, c ∈ s → is_linebreak c = true → c = LF) →
  last s ≠ Some LF →
  str_join [LF] (splitlines_from false cur s) = reverse cur ++ s.
Proof.
  revert cur. induction s as [|x s IH]; intros cur Hlf Hlast.
  - simpl. rewrite app_nil_r. by destruct cur.
  - assert (∀ c, c ∈ s → is_linebreak c = true → c = LF) as Hlf'
      by (intros c ?; apply Hlf; by apply list_elem_of_further).
    assert (s ≠ [] → last s ≠ Some LF) as Hlast'
      by (intros ?; destruct s; [done | by rewrite last_cons_cons in Hlast]).
    cbn [splitlines_from andb]. destruct (is_linebreak x) eqn:E.
    + rewrite (Hlf x (list_elem_of_here _ _) E) in *.
      destruct s as [|y s]; [done |].
      rewrite str_join_cons by (apply splitlines_from_nonempty; by right).
      change (bool_decide (LF = CR)) with false.
      rewrite IH by auto. done.
    + rewrite IH; [| done |].
      * by rewrite reverse_cons, <- (assoc_L (++)).
      * destruct s as [|y s]; [|by apply Hlast'].
        intros [=].
Qed.

Lemma str_join_splitlines (s : str) :
  (∀ c, c ∈ s → is_linebreak c = true → c = LF) →
  last s ≠ Some LF →
  str_join [LF] (splitlines s) = s.
Proof. apply (str_join_splitlines_from []). Qed.

(** *** Carriage returns before the line feeds *)

Lemma with_crlf_app (a b : str) :
  with_crlf (a ++ b) = with_crlf a ++ with_crlf b.
Proof. apply flat_map_app. Qed.

Lemma with_crlf_line (l : str) : LF ∉ l → with_crlf l = l.
Proof.
  induction l as [|c l IH]; [done |].
  intros [Hc Hl]%not_elem_of_cons. unfold with_crlf in *. simpl.
  rewrite decide_False by done. simpl. by rewrite IH.
Qed.

Lemma elem_of_with_crlf (c : N) (s : str) :
  c ∈ with_crlf s → c = CR ∨ c ∈ s.
Proof.
  induction s as [|x s IH]; [by intros ?%elem_of_nil |].
  change (with_crlf (x :: s))
    with ((if decide (x = LF) then [CR; LF] else [x]) ++ with_crlf s).
  intros [Hc | Hc]%elem_of_app.
  - destruct (decide (x = LF)) as [-> |].
    + apply elem_of_cons in Hc as [-> | ->%list_elem_of_singleton];
        [by left | right; apply list_elem_of_here].
    + apply list_elem_of_singleton in Hc as ->. right. apply list_elem_of_here.
  - destruct (IH Hc); [by left | right; by apply list_elem_of_further].
Qed.

Lemma filter_nonempty_id (parts : list str) :
  [] ∉ parts → filter (λ l : str, l ≠ []) parts = parts.
Proof.
  induction parts as [|p parts IH]; [done |].
  intros [Hp Hparts]%not_elem_of_cons.
  rewrite filter_cons_True by done. by rewrite IH.
Qed.

(** Joining with CR LF puts a carriage return before every line feed of the
    join with LF. *)
Lemma str_join_with_crlf (parts : list str) :
  Forall (λ l, LF ∉ l) parts →
  str_join [CR; LF] parts = with_crlf (str_join [LF] parts).
Proof.
  induction 1 as [|p rest Hp Hrest IH]; [done |].
  destruct rest as [|q rest]; [by rewrite with_crlf_line |].
  rewrite (str_join_cons [CR; LF]), (str_join_cons [LF]) by done.
  rewrite IH, !with_crlf_app, (with_crlf_line p) by done. done.
Qed.

Lemma with_crlf_head (s : str) :
  head (with_crlf s) = Some SP → head s = Some SP.
Proof.
  destruct s as [|c s]; [done |]. unfold with_crlf. simpl.
  destruct (decide (c = LF)); [done | done].
Qed.

Lemma with_crlf_no_double_space (s : str) :
  no_double_space s → no_double_space (with_crlf s).
Proof.
  induction s as [|c s IH]; [done |].
  intros [Hc Hs]%no_double_space_cons.
  change (with_crlf (c :: s))
    with ((if decide (c = LF) then [CR; LF] else [c]) ++ with_crlf s).
  destruct (decide (c = LF)) as [-> |]; cbn [app].
  - apply no_double_space_cons. split; [by intros [[=] _] |].
    apply no_double_space_cons. split; [by intros [[=] _] | by apply IH].
  - apply no_double_space_cons. split; [| by apply IH].
    intros [-> Hhead]. apply Hc. split; [done |]. by apply with_crlf_head.
Qed.

(** [replace("\r", "")] takes the carriage returns away again. *)
Lemma str_replace_CR_with_crlf (s : str) :
  CR ∉ s → str_replace [CR] [] (with_crlf s) = s.
Proof.
  unfold str_replace.
  induction s as [|c s IH]; [done |].
  intros [Hc Hs]%not_elem_of_cons.
  change (with_crlf (c :: s))
    with ((if decide (c = LF) then [CR; LF] else [c]) ++ with_crlf s).
  destruct (decide (c = LF)) as [-> |]; cbn [app].
  - simpl. by rewrite IH.
  - simpl. rewrite bool_decide_false by done. simpl. by rewrite IH.
Qed.

(** The substitutions undo the carriage returns on a text they have
    nothing else to do on. *)
Lemma substitutions_with_crlf (s : str) :
  PERCENT ∉ s → STAR ∉ s → CR ∉ s → DEG ∉ s → no_double_space s → trimmed s →
  substitutions (with_crlf s) = s.
Proof.
  intros Hp Hs Hc Hd Hn Ht. unfold substitutions. cbv zeta.
  assert (∀ c, c ≠ CR → c ∉ s → c ∉ with_crlf s) as Hout.
  { intros c Hne Hnot [? | ?]%elem_of_with_crlf; done. }
  rewrite (str_replace_absent PERCENT [] _ (with_crlf s))
    by (by apply Hout).
  rewrite (str_replace_absent STAR [] _ (with_crlf s)) by (by apply Hout).
  rewrite (str_replace_two_spaces_absent (lit "+") _ (with_crlf s))
    by (by apply with_crlf_no_double_space).
  rewrite (str_replace_CR_with_crlf s Hc).
  rewrite (trimmed_strip s Ht).
  rewrite re_sub_collapse, (collapse_spaces_id s Hn).
  by rewrite !(str_replace_absent DEG _ _ s Hd).
Qed.

(** The line boundaries of a result are line feeds when the platform joins
    the lines with LF or CR LF and the emoji stripper only deletes. *)
Lemma clean_text_for_tts_breaks (linesep : str) (demoji_replace : str → str)
    (fuel : nat) (text out : str) (c : N) :
  linesep = [LF] ∨ linesep = [CR; LF] →
  (∀ s x, x ∈ demoji_replace s → x ∈ s) →
  clean_text_for_tts linesep demoji_replace fuel text = Some out →
  c ∈ out → is_linebreak c = true → c = LF.
Proof.
  intros Hsep Hdel Hrun Hc Hbreak.
  unfold clean_text_for_tts in Hrun.
  destruct (remove_markdown_styles fuel _) as [m|] eqn:Hm; [|done].
  injection Hrun as <-.
  destruct (substitutions_free m) as (_ & _ & Hcr & _).
  assert (c ∈ linesep) as Hin.
  { apply (drop_blank_lines_breaks linesep text); [| done].
    apply Hdel.
    apply remove_markdown_styles_Some in Hm as (mid & H2 & H1).
    apply exhausts_delim_keeps in H2 as [_ H2].
    apply exhausts_delim_keeps in H1 as [_ H1].
    apply (λ H, elem_of_sublist _ _ c H H2), (λ H, elem_of_sublist _ _ c H H1).
    destruct (substitutions_elem_of m c Hc) as [? | Hlit]; [done |].
    exfalso. revert Hbreak.
    repeat (apply elem_of_cons in Hlit as [-> | Hlit]; [by vm_compute |]).
    by apply elem_of_nil in Hlit. }
  destruct Hsep as [-> | ->].
  - by apply list_elem_of_singleton in Hin.
  - apply elem_of_cons in Hin as [-> | ?%list_elem_of_singleton]; done.
Qed.

(** C6, amended.  Once the result has no degree sign and no empty line, and
    the emoji stripper finds nothing in its lines joined by the platform's
    separator, a second run gives the same result.  The separator is LF or
    CR LF and the stripper only deletes. *)
Theorem clean_text_for_tts_idempotent (linesep : str)
    (demoji_replace : str → str) (fuel : nat) (text out : str) :
  linesep = [LF] ∨ linesep = [CR; LF] →
  (∀ s c, c ∈ demoji_replace s → c ∈ s) →
  clean_text_for_tts linesep demoji_replace fuel text = Some out →
  DEG ∉ out →
  [] ∉ splitlines out →
  demoji_replace (drop_blank_lines linesep out)
  = drop_blank_lines linesep out →
  clean_text_for_tts linesep demoji_replace fuel out = Some out.
Proof.
  intros Hsep Hdel Hrun Hdeg Hblank Hemoji.
  pose proof (λ c, clean_text_for_tts_breaks _ _ _ _ _ c Hsep Hdel Hrun)
    as Hbreaks.
  assert ((PERCENT ∉ out) ∧ (STAR ∉ out) ∧ (CR ∉ out) ∧ no_double_space out
          ∧ trimmed out) as (Hp & Hs & Hc & Hn & Ht).
  { unfold clean_text_for_tts in Hrun.
    destruct (remove_markdown_styles fuel _) as [m|]; [|done].
    injection Hrun as <-.
    destruct (substitutions_free m) as (? & ? & ? & ?).
    split_and!; try done. apply substitutions_ends. }
  assert (last out ≠ Some LF) as Hlast.
  { intros Hl. apply trimmed_ends in Ht as [_ Ht].
    by specialize (Ht _ Hl). }
  assert (filter (λ l : str, l ≠ []) (splitlines out) = splitlines out)
    as Hfilter
    by (by apply filter_nonempty_id).
  pose proof (str_join_splitlines out Hbreaks Hlast) as Hjoin.
  destruct Hsep as [-> | ->].
  - apply (clean_text_for_tts_second_run _ _ _ text); try done.
    + unfold drop_blank_lines. by rewrite Hfilter.
    + revert Hemoji. unfold drop_blank_lines. by rewrite Hfilter, Hjoin.
  - assert (drop_blank_lines [CR; LF] out = with_crlf out) as Hcrlf.
    { unfold drop_blank_lines.
      rewrite str_join_with_crlf, Hfilter, Hjoin; [done |].
      eapply Forall_impl; [apply nonblank_lines |].
      intros l [_ Hl] Hin. rewrite Forall_forall in Hl.
      by specialize (Hl _ Hin). }
    unfold clean_text_for_tts. rewrite Hemoji, Hcrlf.
    rewrite remove_markdown_styles_no_star.
    + simpl. by rewrite substitutions_with_crlf.
    + intros [? | ?]%elem_of_with_crlf; done.
Qed.

Lemma clean_text_for_tts_idempotent_witness :
  let text := lit "a" ++ LF :: LF :: lit "b  +c" in
  let out := lit "a" ++ LF :: lit "b -c" in
  clean_text_for_tts [CR; LF] strip_pictographs 1 text = Some out ∧
  clean_text_for_tts [CR; LF] strip_pictographs 1 out = Some out.
Proof.
  intros text out.
  assert (clean_text_for_tts [CR; LF] strip_pictographs 1 text = Some out)
    as Hrun by (vm_compute; reflexivity).
  split; [exact Hrun |].
  apply (clean_text_for_tts_idempotent [CR; LF] strip_pictographs 1 text out).
  - by right.
  - intros s c [_ ?]%list_elem_of_filter. done.
  - exact Hrun.
  - by_evaluation.
  - by_evaluation.
  - vm_compute. reflexivity.
Defined.

(** ** The replacement of a plus sign after two spaces, in the normalizer *)

(** The substitutions with the rewrite of the specification in the place of
    the replacement of [  +]. *)
Lemma substitutions_minus_after_two_spaces (m : str) :
  substitutions m
  = let t := str_replace [PERCENT] (lit " percent") m in
    let t := str_replace [STAR] [MINUS] t in
    let t := minus_after_two_spaces 0 t in
    let t := strip (str_replace [CR] [] t) in
    let t := collapse_spaces t in
    let t := str_replace (DEG :: lit "F") (DEG :: lit " Fahrenheit") t in
    let t := str_replace (DEG :: lit "C") (DEG :: lit " Celsius") t in
    str_replace (DEG :: lit "K") (DEG :: lit " Kelvin") t.
Proof.
  unfold substitutions. cbv zeta.
  assert (∀ s, str_replace (lit "  +") (lit "  -") s
               = minus_after_two_spaces 0 s) as Hplus
    by (intros s; apply (replace_plus_spaces 0 s); lia).
  by rewrite Hplus, re_sub_collapse.
Qed.

Lemma minus_after_two_spaces_elem_of (n : nat) (s : str) (c : N) :
  c ∈ minus_after_two_spaces n s → c = MINUS ∨ c ∈ s.
Proof.
  revert n. induction s as [|x s IH]; intros n; [by intros ?%elem_of_nil |].
  simpl. destruct (decide (x = PLUS ∧ n = 2)).
  - intros [-> | H]%elem_of_cons; [by left |].
    destruct (IH _ H); [by left | right; by apply list_elem_of_further].
  - intros [-> | H]%elem_of_cons; [right; apply list_elem_of_here |].
    destruct (IH _ H); [by left | right; by apply list_elem_of_further].
Qed.

(** On a line without percent sign, asterisk and degree sign the
    substitutions are the rewrite of the plus signs, the strip and the
    collapse of spaces. *)
Lemma substitutions_plus_line (s : str) :
  PERCENT ∉ s → STAR ∉ s → CR ∉ s → DEG ∉ s →
  substitutions s = collapse_spaces (strip (minus_after_two_spaces 0 s)).
Proof.
  intros Hp Hs Hc Hd. rewrite substitutions_minus_after_two_spaces. cbv zeta.
  rewrite (str_replace_absent PERCENT [] _ s Hp).
  rewrite (str_replace_absent STAR [] _ s Hs).
  assert (∀ c, c ≠ MINUS → c ∉ s → c ∉ minus_after_two_spaces 0 s) as Hout.
  { intros c Hne Hnot [? | ?]%minus_after_two_spaces_elem_of; done. }
  rewrite (str_replace_absent CR [] _ (minus_after_two_spaces 0 s))
    by (by apply Hout).
  assert (DEG ∉ collapse_spaces (strip (minus_after_two_spaces 0 s))) as Hd'.
  { intros H%collapse_spaces_elem_of%strip_elem_of. by apply (Hout DEG). }
  by rewrite !(str_replace_absent DEG _ _ _ Hd').
Qed.

Lemma minus_after_two_spaces_repeated (n : nat) :
  minus_after_two_spaces 0 (repeated (lit "  +b") n) = repeated (lit "  -b") n.
Proof.
  unfold repeated. change (lit "a" ++ ?t) with (97%N :: t).
  change (minus_after_two_spaces 0 (97%N :: ?t))
    with (97%N :: minus_after_two_spaces 0 t).
  f_equal. induction n as [|n IH]; [done |].
  change (minus_after_two_spaces 0 (concat (replicate (S n) (lit "  +b"))))
    with (lit "  -b"
          ++ minus_after_two_spaces 0 (concat (replicate n (lit "  +b")))).
  by rewrite IH.
Qed.

Lemma collapse_spaces_repeated (n : nat) :
  collapse_spaces (repeated (lit "  -b") n) = repeated (lit " -b") n.
Proof.
  unfold repeated. change (lit "a" ++ ?t) with (97%N :: t).
  change (collapse_spaces (97%N :: ?t)) with (97%N :: collapse_spaces t).
  f_equal. induction n as [|n IH]; [done |].
  change (collapse_spaces (concat (replicate (S n) (lit "  -b"))))
    with (lit " -b" ++ collapse_spaces (concat (replicate n (lit "  -b")))).
  by rewrite IH.
Qed.

Lemma repeated_elem_of (new : str) (n : nat) (c : N) :
  c ∈ repeated new n → c = 97%N ∨ c ∈ new.
Proof.
  unfold repeated. intros [H | H]%elem_of_app.
  - apply list_elem_of_singleton in H. by left.
  - right. induction n as [|n IH]; [by apply elem_of_nil in H |].
    simpl in H. apply elem_of_app in H as [? | ?]; auto.
Qed.

Lemma repeated_last (new : str) (n : nat) (c : N) :
  last new = Some c →
  last (repeated new n) = Some c ∨ last (repeated new n) = Some 97%N.
Proof.
  intros Hnew. unfold repeated. destruct n as [|n]; [by right |]. left.
  rewrite replicate_S_end, concat_app. cbn [concat]. rewrite app_nil_r.
  destruct new as [|x new _] using rev_ind; [done |].
  rewrite last_snoc in Hnew. rewrite !(assoc_L (++)), last_snoc. done.
Qed.

Lemma plus_after_one_space_repeated (n : nat) :
  minus_after_two_spaces 0 (repeated (lit " +b") n) = repeated (lit " +b") n.
Proof.
  unfold repeated. change (lit "a" ++ ?t) with (97%N :: t).
  change (minus_after_two_spaces 0 (97%N :: ?t))
    with (97%N :: minus_after_two_spaces 0 t).
  f_equal. induction n as [|n IH]; [done |].
  change (minus_after_two_spaces 0 (concat (replicate (S n) (lit " +b"))))
    with (lit " +b"
          ++ minus_after_two_spaces 0 (concat (replicate n (lit " +b")))).
  by rewrite IH.
Qed.

Lemma collapse_spaces_one_space_repeated (n : nat) :
  collapse_spaces (repeated (lit " +b") n) = repeated (lit " +b") n.
Proof.
  unfold repeated. change (lit "a" ++ ?t) with (97%N :: t).
  change (collapse_spaces (97%N :: ?t)) with (97%N :: collapse_spaces t).
  f_equal. induction n as [|n IH]; [done |].
  change (collapse_spaces (concat (replicate (S n) (lit " +b"))))
    with (lit " +b" ++ collapse_spaces (concat (replicate n (lit " +b")))).
  by rewrite IH.
Qed.

Lemma repeated_trimmed (new : str) (n : nat) :
  last new = Some 98%N → trimmed (repeated new n).
Proof.
  intros Hnew. apply trimmed_ends. split.
  - by intros c [= <-].
  - intros c Hc.
    destruct (repeated_last new n 98%N Hnew) as [H | H];
      rewrite H in Hc; by injection Hc as <-.
Qed.

(** The normalizer on a line without percent sign, asterisk and degree
    sign that the emoji stripper leaves as it is. *)
Lemma clean_text_for_tts_plus_line (linesep : str)
    (demoji_replace : str → str) (fuel : nat) (text : str) :
  Forall (λ c, is_linebreak c = false) text →
  PERCENT ∉ text → STAR ∉ text → DEG ∉ text →
  demoji_replace text = text →
  clean_text_for_tts linesep demoji_replace fuel text
  = Some (collapse_spaces (strip (minus_after_two_spaces 0 text))).
Proof.
  intros Hline Hp Hs Hd He. unfold clean_text_for_tts.
  rewrite drop_blank_lines_single_line, He by done.
  rewrite remove_markdown_styles_no_star by done. simpl.
  rewrite substitutions_plus_line; [done | done | done | | done].
  intros Hc. rewrite Forall_forall in Hline. by specialize (Hline _ Hc).
Qed.

Lemma clean_text_for_tts_repeated (linesep : str)
    (demoji_replace : str → str) (fuel : nat) (new : str) (n : nat) :
  new = lit "  +b" ∨ new = lit " +b" →
  demoji_replace (repeated new n) = repeated new n →
  clean_text_for_tts linesep demoji_replace fuel (repeated new n)
  = Some (collapse_spaces (strip (minus_after_two_spaces 0 (repeated new n)))).
Proof.
  intros Hnew He.
  assert (∀ c, c ∈ repeated new n → c ∈ lit "a  +b") as Hin.
  { intros c [-> | Hc]%repeated_elem_of; [by_evaluation |].
    destruct Hnew as [-> | ->]; revert Hc;
      repeat (intros [-> | Hc]%elem_of_cons; [by_evaluation | revert Hc]);
      by intros ?%elem_of_nil. }
  assert (∀ c, c ∉ lit "a  +b" → c ∉ repeated new n) as Hout
    by (intros c Hc H; by apply Hc, Hin).
  apply clean_text_for_tts_plus_line; [ | | | | done].
  - apply Forall_forall. intros c Hc. specialize (Hin c Hc). revert Hin.
    repeat (intros [-> | Hin]%elem_of_cons; [done | revert Hin]).
    by intros ?%elem_of_nil.
  - apply Hout. by_evaluation.
  - apply Hout. by_evaluation.
  - apply Hout. by_evaluation.
Qed.

(** C8.  The replacement of [  +] in the normalizer is literal and reaches
    every occurrence: the result is the one of the steps of the source with
    the rewrite "a plus sign becomes a minus sign exactly when two spaces
    come right before it" in the place of the replacement, before the strip
    and the collapse of spaces; on a line without percent sign, asterisk
    and degree sign nothing else happens; [n] occurrences of [  +b] after
    [a] all become [ -b], [n] occurrences of [ +b] all stay; the two
    examples of the claim follow. *)
Theorem replace_plus_after_two_spaces_literal (linesep : str)
    (demoji_replace : str → str) (fuel : nat) :
  demoji_replace (lit "a  +b") = lit "a  +b" →
  demoji_replace (lit "a +b") = lit "a +b" →
  demoji_replace (lit "a  +b  +c") = lit "a  +b  +c" →
  (∀ s, str_replace (lit "  +") (lit "  -") s = minus_after_two_spaces 0 s) ∧
  (∀ text out,
     clean_text_for_tts linesep demoji_replace fuel text = Some out →
     ∃ m,
       remove_markdown_styles fuel
         (demoji_replace (drop_blank_lines linesep text)) = Some m ∧
       out
       = let t := str_replace [PERCENT] (lit " percent") m in
         let t := str_replace [STAR] [MINUS] t in
         let t := minus_after_two_spaces 0 t in
         let t := strip (str_replace [CR] [] t) in
         let t := collapse_spaces t in
         let t := str_replace (DEG :: lit "F") (DEG :: lit " Fahrenheit") t in
         let t := str_replace (DEG :: lit "C") (DEG :: lit " Celsius") t in
         str_replace (DEG :: lit "K") (DEG :: lit " Kelvin") t) ∧
  (∀ text,
     Forall (λ c, is_linebreak c = false) text →
     (PERCENT ∉ text) → (STAR ∉ text) → (DEG ∉ text) →
     demoji_replace text = text →
     clean_text_for_tts linesep demoji_replace fuel text
     = Some (collapse_spaces (strip (minus_after_two_spaces 0 text)))) ∧
  (∀ n,
     demoji_replace (repeated (lit "  +b") n) = repeated (lit "  +b") n →
     clean_text_for_tts linesep demoji_replace fuel (repeated (lit "  +b") n)
     = Some (repeated (lit " -b") n)) ∧
  (∀ n,
     demoji_replace (repeated (lit " +b") n) = repeated (lit " +b") n →
     clean_text_for_tts linesep demoji_replace fuel (repeated (lit " +b") n)
     = Some (repeated (lit " +b") n)) ∧
  clean_text_for_tts linesep demoji_replace fuel (lit "a  +b")
  = Some (lit "a -b") ∧
  clean_text_for_tts linesep demoji_replace fuel (lit "a +b")
  = Some (lit "a +b") ∧
  clean_text_for_tts linesep demoji_replace fuel (lit "a  +b  +c")
  = Some (lit "a -b -c").
Proof.
  intros H1 H2 H3.
  assert (∀ n,
     demoji_replace (repeated (lit "  +b") n) = repeated (lit "  +b") n →
     clean_text_for_tts linesep demoji_replace fuel (repeated (lit "  +b") n)
     = Some (repeated (lit " -b") n)) as Htwo.
  { intros n He. rewrite clean_text_for_tts_repeated by auto.
    rewrite minus_after_two_spaces_repeated.
    rewrite trimmed_strip by (by apply repeated_trimmed).
    by rewrite collapse_spaces_repeated. }
  assert (∀ n,
     demoji_replace (repeated (lit " +b") n) = repeated (lit " +b") n →
     clean_text_for_tts linesep demoji_replace fuel (repeated (lit " +b") n)
     = Some (repeated (lit " +b") n)) as Hone.
  { intros n He. rewrite clean_text_for_tts_repeated by auto.
    rewrite plus_after_one_space_repeated.
    rewrite trimmed_strip by (by apply repeated_trimmed).
    by rewrite collapse_spaces_one_space_repeated. }
  split_and!.
  - intros s. apply (replace_plus_spaces 0 s). lia.
  - intros text out Hrun. unfold clean_text_for_tts in Hrun.
    destruct (remove_markdown_styles fuel _) as [m|]; [|done].
    injection Hrun as <-. exists m. split; [done |].
    apply substitutions_minus_after_two_spaces.
  - apply clean_text_for_tts_plus_line.
  - exact Htwo.
  - exact Hone.
  - apply (Htwo 1), H1.
  - apply (Hone 1), H2.
  - rewrite clean_text_for_tts_plus_line; [done | | | | | done].
    + repeat constructor.
    + by_evaluation.
    + by_evaluation.
    + by_evaluation.
Qed.

Lemma replace_plus_after_two_spaces_literal_witness :
  (∀ s, str_replace (lit "  +") (lit "  -") s = minus_after_two_spaces 0 s) ∧
  (∀ text out,
     clean_text_for_tts [LF] strip_pictographs 0 text = Some out →
     ∃ m,
       remove_markdown_styles 0
         (strip_pictographs (drop_blank_lines [LF] text)) = Some m ∧
       out
       = let t := str_replace [PERCENT] (lit " percent") m in
         let t := str_replace [STAR] [MINUS] t in
         let t := minus_after_two_spaces 0 t in
         let t := strip (str_replace [CR] [] t) in
         let t := collapse_spaces t in
         let t := str_replace (DEG :: lit "F") (DEG :: lit " Fahrenheit") t in
         let t := str_replace (DEG :: lit "C") (DEG :: lit " Celsius") t in
         str_replace (DEG :: lit "K") (DEG :: lit " Kelvin") t) ∧
  (∀ text,
     Forall (λ c, is_linebreak c = false) text →
     (PERCENT ∉ text) → (STAR ∉ text) → (DEG ∉ text) →
     strip_pictographs text = text →
     clean_text_for_tts [LF] strip_pictographs 0 text
     = Some (collapse_spaces (strip (minus_after_two_spaces 0 text)))) ∧
  (∀ n,
     strip_pictographs (repeated (lit "  +b") n) = repeated (lit "  +b") n →
     clean_text_for_tts [LF] strip_pictographs 0 (repeated (lit "  +b") n)
     = Some (repeated (lit " -b") n)) ∧
  (∀ n,
     strip_pictographs (repeated (lit " +b") n) = repeated (lit " +b") n →
     clean_text_for_tts [LF] strip_pictographs 0 (repeated (lit " +b") n)
     = Some (repeated (lit " +b") n)) ∧
  clean_text_for_tts [LF] strip_pictographs 0 (lit "a  +b")
  = Some (lit "a -b") ∧
  clean_text_for_tts [LF] strip_pictographs 0 (lit "a +b")
  = Some (lit "a +b") ∧
  clean_text_for_tts [LF] strip_pictographs 0 (lit "a  +b  +c")
  = Some (lit "a -b -c").
Proof.
  apply (replace_plus_after_two_spaces_literal [LF] strip_pictographs 0);
    vm_compute; reflexivity.
Defined.

(** ** A text of white space only *)

(** A text of white space only, line boundaries included, is normalized to
    the empty string when the platform's separator is white space and the
    emoji stripper only deletes. *)
Lemma clean_text_for_tts_all_white_space (linesep : str)
    (demoji_replace : str → str) (fuel : nat) (text : str) :
  Forall (λ c, is_space c = true) linesep →
  (∀ s c, c ∈ demoji_replace s → c ∈ s) →
  Forall (λ c, is_space c = true) text →
  clean_text_for_tts linesep demoji_replace fuel text = Some [].
Proof.
  intros Hsep Hdel Hall. rewrite Forall_forall in Hsep, Hall.
  set (t := demoji_replace (drop_blank_lines linesep text)).
  assert (∀ c, c ∈ t → is_space c = true) as Ht.
  { intros c Hc%Hdel.
    destruct (drop_blank_lines_elem_of _ _ _ Hc); auto. }
  assert (∀ c, is_space c = false → c ∉ t) as Hnot.
  { intros c Hc H. specialize (Ht c H). congruence. }
  unfold clean_text_for_tts. fold t.
  rewrite remove_markdown_styles_no_star by (by apply Hnot). simpl.
  f_equal. unfold substitutions. cbv zeta.
  rewrite (str_replace_no_occurrence PERCENT [PERCENT] _ t)
    by (by_evaluation || by apply Hnot).
  rewrite (str_replace_no_occurrence STAR [STAR] _ t)
    by (by_evaluation || by apply Hnot).
  rewrite (str_replace_no_occurrence PLUS (lit "  +") _ t)
    by (by_evaluation || by apply Hnot).
  unfold strip. rewrite lstrip_all_space; [done |].
  apply Forall_forall. intros c Hc. apply Ht.
  by apply str_replace_elem_of in Hc as [? | ?%elem_of_nil].
Qed.

(** ** The speaker label *)

Lemma lit_inj (s1 s2 : string) : lit s1 = lit s2 → s1 = s2.
Proof.
  unfold lit. intros H.
  rewrite <- (string_of_list_ascii_of_string s1).
  rewrite <- (string_of_list_ascii_of_string s2). f_equal.
  revert H. generalize (list_ascii_of_string s1) (list_ascii_of_string s2).
  intros l1. induction l1 as [|a l1 IH]; intros [|b l2] H; simplify_eq/=;
    [done |].
  f_equal; [|by apply IH].
  rewrite <- (ascii_N_embedding a), <- (ascii_N_embedding b). congruence.
Qed.

Lemma str_of_int_inj (a b : Z) : str_of_int a = str_of_int b → a = b.
Proof.
  unfold str_of_int. intros H%lit_inj.
  assert (∀ z, NilZero.int_of_string (NilZero.string_of_int (Z.to_int z))
               = Some (Z.to_int z)) as Hparse.
  { intros z. apply NilZero.isi; destruct z; simpl; try done;
      intros [= E]; by apply Unsigned.to_uint_nonnil in E. }
  pose proof (Hparse a) as Ha. rewrite H, Hparse in Ha.
  injection Ha as Ha. rewrite <- (DecimalZ.of_to a), <- (DecimalZ.of_to b).
  by rewrite Ha.
Qed.

(** X9.  Two speaker ids never share a speaker label: the label is the
    letter p and the decimal numeral of the id, which reads back as the
    id. *)
Theorem speaker_label_distinct (a b : Z) :
  a ≠ b → lit "p" ++ str_of_int a ≠ lit "p" ++ str_of_int b.
Proof. intros Hne H. apply Hne, str_of_int_inj. by simplify_list_eq. Qed.

Lemma speaker_label_distinct_witness :
  (225 ≠ -225)%Z ∧ lit "p" ++ str_of_int 225 ≠ lit "p" ++ str_of_int (-225).
Proof. split; [lia | apply speaker_label_distinct; lia]. Defined.

Lemma str_of_int_neg (n : Z) :
  (n < 0)%Z → str_of_int n = MINUS :: str_of_int (- n).
Proof. by destruct n. Qed.

(** ** The handler *)

Section HandlerFacts.

Context (linesep : str) (demoji_replace : str → str) (float : Type).
Context (synthesize : str → str → option float → option bytes).
Context (flac_encode : bytes → option bytes).
Context (temp_name : gmap string bytes → string → string).

Local Abbreviation handler :=
  (tts linesep demoji_replace synthesize flac_encode temp_name).
Local Abbreviation serve :=
  (tts_serve linesep demoji_replace synthesize flac_encode temp_name).

Implicit Types (speed : option float).

(** *** The steps of the handler, one at a time *)

Lemma run_named_temporary_file {A} (suffix : string) (k : string → M float A)
    (w : World float) :
  bind (named_temporary_file temp_name suffix) k w
  = k (temp_name (files w) suffix)
      {| files := <[temp_name (files w) suffix := []]> (files w);
         synth_calls := synth_calls w |}.
Proof. done. Qed.

Lemma run_call_clean_text_for_tts {A} (fuel : nat) (text normalized : str)
    (k : str → M float A)
    (w : World float) :
  clean_text_for_tts linesep demoji_replace fuel text = Some normalized →
  bind (call_clean_text_for_tts linesep demoji_replace fuel text) k w
  = k normalized w.
Proof. intros H. unfold bind, call_clean_text_for_tts. by rewrite H. Qed.

Lemma run_tts_to_file {A} (text speaker : str) speed (path : string)
    (k : () → M float A) w :
  bind (tts_to_file synthesize text speaker speed path) k w
  = let calls := synth_calls w ++ [(text, speaker, speed)] in
    match synthesize text speaker speed with
    | Some wav => k () {| files := <[path := wav]> (files w);
                          synth_calls := calls |}
    | None => (Raised SynthesisError,
               {| files := files w; synth_calls := calls |})
    end.
Proof. unfold bind, tts_to_file. by destruct (synthesize text speaker speed). Qed.

Lemma run_file_encoder {A} (input_file output_file : string) (wav : bytes)
    (k : () → M float A) w :
  files w !! input_file = Some wav →
  bind (file_encoder flac_encode input_file output_file) k w
  = match flac_encode wav with
    | Some flac => k () {| files := <[output_file := flac]> (files w);
                           synth_calls := synth_calls w |}
    | None => (Raised EncoderError, w)
    end.
Proof.
  intros H. unfold bind, file_encoder. rewrite H.
  by destruct (flac_encode wav).
Qed.

Lemma run_read_file {A} (path : string) (b : bytes) (k : bytes → M float A)
    (w : World float) :
  files w !! path = Some b → bind (read_file path) k w = k b w.
Proof. intros H. unfold bind, read_file. by rewrite H. Qed.

Lemma run_os_remove {A} (path : string) (b : bytes) (k : () → M float A) w :
  files w !! path = Some b →
  bind (os_remove path) k w
  = k () {| files := delete path (files w); synth_calls := synth_calls w |}.
Proof. intros H. unfold bind, os_remove. by rewrite H. Qed.

(** The file operations make no call to the synthesis capability. *)
Lemma keeps_calls_bind {A B} (m : M float A) (k : A → M float B) :
  keeps_calls m → (∀ a, keeps_calls (k a)) → keeps_calls (bind m k).
Proof.
  intros Hm Hk w. unfold bind. specialize (Hm w).
  destruct (m w) as [[a | e |] w']; simpl in *; [|done..].
  by rewrite Hk.
Qed.

Lemma keeps_calls_ret {A} (a : A) : keeps_calls (float := float) (ret a).
Proof. done. Qed.

Lemma keeps_calls_named_temporary_file (suffix : string) :
  keeps_calls (float := float) (named_temporary_file temp_name suffix).
Proof. done. Qed.

Lemma keeps_calls_file_encoder (input_file output_file : string) :
  keeps_calls (float := float)
    (file_encoder flac_encode input_file output_file).
Proof. intros w. unfold file_encoder. by repeat case_match. Qed.

Lemma keeps_calls_read_file (path : string) :
  keeps_calls (float := float) (read_file path).
Proof. intros w. unfold read_file. by case_match. Qed.

Lemma keeps_calls_os_remove (path : string) :
  keeps_calls (float := float) (os_remove path).
Proof. intros w. unfold os_remove. by case_match. Qed.

(** *** The two checks *)

Lemma tts_checked (fuel : nat) (text : str) (speaker_id : Z) speed
    (compress : option bool)
    (w : World float) :
  text ≠ [] → speaker_id ≠ 0%Z →
  handler fuel (Some text) (Some speaker_id) speed compress w
  = serve fuel text speaker_id speed compress w.
Proof. intros. by destruct text, speaker_id. Qed.

(** No step after the checks raises an [HTTPException]. *)
Lemma tts_serve_no_http_error (fuel : nat) (text : str) (speaker_id : Z) speed
    (compress : option bool) (w : World float) (code : Z)
    (detail : string) :
  (serve fuel text speaker_id speed compress w).1
  ≠ Raised (HTTPException code detail).
Proof.
  unfold tts_serve, bind, named_temporary_file, call_clean_text_for_tts,
    tts_to_file, file_encoder, read_file, os_remove, ret; simpl.
  repeat (case_match; simplify_eq/=; try done).
Qed.

(** C3.  The handler ends in the client error (HTTP 400) exactly when the
    text is missing or empty or the speaker id is missing or zero; a
    speaker id of 0 is treated as a missing one. *)
Theorem tts_validation (fuel : nat) (text : option str)
    (speaker_id : option Z) speed (compress : option bool)
    (w : World float) :
  ((∃ detail,
      (tts linesep demoji_replace synthesize flac_encode temp_name
         fuel text speaker_id speed compress w).1
      = Raised (HTTPException 400 detail))
   ↔ text = None ∨ text = Some [] ∨ speaker_id = None
     ∨ speaker_id = Some 0%Z) ∧
  tts linesep demoji_replace synthesize flac_encode temp_name
    fuel text (Some 0%Z) speed compress w
  = tts linesep demoji_replace synthesize flac_encode temp_name
      fuel text None speed compress w.
Proof.
  split; [|by destruct text as [[|c t]|]].
  split.
  - intros [detail H].
    destruct text as [[|c t]|]; [by auto | | by auto].
    destruct speaker_id as [n|]; [| by auto].
    destruct (decide (n = 0%Z)) as [-> | Hn]; [by auto |].
    rewrite tts_checked in H by done.
    by destruct (tts_serve_no_http_error fuel (c :: t) n speed compress w
                   400 detail).
  - intros Hbad. unfold tts.
    destruct text as [[|c t]|]; [by eauto | | by eauto].
    destruct speaker_id as [[|p|p]|]; [by eauto | | | by eauto];
      destruct Hbad as [? | [? | [? | ?]]]; done.
Qed.

(** *** A valid request *)

(** The handler after the synthesis: the response and the removal of the
    files, from a file system where the WAV file is written and the name of
    the FLAC file is new. *)
Lemma tts_serve_run (fuel : nat) (text normalized : str) (speaker_id : Z)
    speed (compress : bool) (w : World float) (wav : bytes) :
  (∀ fs suffix, fs !! temp_name fs suffix = None) →
  clean_text_for_tts linesep demoji_replace fuel text = Some normalized →
  synthesize normalized (lit "p" ++ str_of_int speaker_id) speed = Some wav →
  serve fuel text speaker_id speed (Some compress) w
  = let calls :=
      synth_calls w ++ [(normalized, lit "p" ++ str_of_int speaker_id, speed)] in
    let wav_path := temp_name (files w) ".wav" in
    let fs := <[wav_path := wav]> (<[wav_path := []]> (files w)) in
    let flac_path := temp_name fs ".flac" in
    if compress then
      match flac_encode wav with
      | Some flac =>
          (Returned {| content := flac; media_type := "audio/flac" |},
           {| files := files w; synth_calls := calls |})
      | None =>
          (Raised EncoderError,
           {| files := <[flac_path := []]> fs; synth_calls := calls |})
      end
    else
      (Returned {| content := wav; media_type := "audio/wav" |},
       {| files := files w; synth_calls := calls |}).
Proof.
  intros Hfresh Hclean Hsyn. cbv zeta.
  pose proof (Hfresh (files w) ".wav") as Hwav.
  set (wav_path := temp_name (files w) ".wav") in *.
  set (fs := <[wav_path := wav]> (<[wav_path := []]> (files w))).
  pose proof (Hfresh fs ".flac") as Hflac.
  set (flac_path := temp_name fs ".flac") in *.
  assert (fs !! wav_path = Some wav) as Hfs by apply lookup_insert_eq.
  assert (flac_path ≠ wav_path) as Hne by congruence.
  assert (files w !! flac_path = None) as Hflacw
    by (unfold fs in Hflac; by rewrite !lookup_insert_ne in Hflac).
  assert (delete wav_path fs = files w) as Hdel.
  { unfold fs. by rewrite insert_insert_eq, delete_insert_eq, delete_id. }
  unfold tts_serve.
  rewrite run_named_temporary_file.
  rewrite (run_call_clean_text_for_tts _ _ _ _ _ Hclean).
  rewrite run_tts_to_file, Hsyn. cbv zeta. simpl files. simpl synth_calls.
  fold wav_path. fold fs.
  change (truthy (Some compress)) with compress. destruct compress.
  - rewrite run_named_temporary_file. simpl files. fold flac_path.
    rewrite (run_file_encoder _ _ wav)
      by (simpl; by rewrite lookup_insert_ne).
    destruct (flac_encode wav) as [flac|]; [|done]. simpl files.
    rewrite (run_read_file _ flac) by (simpl; apply lookup_insert_eq).
    rewrite (run_os_remove _ wav)
      by (simpl; by rewrite !lookup_insert_ne).
    rewrite (run_os_remove _ flac)
      by (simpl; rewrite lookup_delete_ne by done; apply lookup_insert_eq).
    simpl. do 2 f_equal.
    rewrite insert_insert_eq, delete_insert_ne by done.
    rewrite delete_insert_eq, Hdel. by apply delete_id.
  - rewrite (run_read_file _ wav) by done.
    rewrite (run_os_remove _ wav) by done.
    simpl. by rewrite Hdel.
Qed.

(** The handler when the synthesis raises: the error is passed on, with the
    empty WAV file still in the file system. *)
Lemma tts_serve_synthesis_failure (fuel : nat) (text normalized : str)
    (speaker_id : Z) speed (compress : option bool)
    (w : World float) :
  clean_text_for_tts linesep demoji_replace fuel text = Some normalized →
  synthesize normalized (lit "p" ++ str_of_int speaker_id) speed = None →
  serve fuel text speaker_id speed compress w
  = (Raised SynthesisError,
     {| files := <[temp_name (files w) ".wav" := []]> (files w);
        synth_calls :=
          synth_calls w
          ++ [(normalized, lit "p" ++ str_of_int speaker_id, speed)] |}).
Proof.
  intros Hclean Hsyn. unfold tts_serve.
  rewrite run_named_temporary_file.
  rewrite (run_call_clean_text_for_tts _ _ _ _ _ Hclean).
  by rewrite run_tts_to_file, Hsyn.
Qed.

(** C4.  A valid request makes one call to the synthesis capability, with
    the normalized text, the letter p followed by the decimal speaker id,
    and the speed of the request; when the call succeeds the response is
    the encoded audio as [audio/flac] if [compress] is true and the
    synthesized audio as [audio/wav] if it is false. *)
Theorem tts_valid_request (fuel : nat) (text normalized : str)
    (speaker_id : Z) speed (compress : bool) (w : World float) :
  (∀ fs suffix, fs !! temp_name fs suffix = None) →
  text ≠ [] → speaker_id ≠ 0%Z →
  clean_text_for_tts linesep demoji_replace fuel text = Some normalized →
  let label := lit "p" ++ str_of_int speaker_id in
  let run :=
    tts linesep demoji_replace synthesize flac_encode temp_name
      fuel (Some text) (Some speaker_id) speed (Some compress) w in
  synth_calls run.2 = synth_calls w ++ [(normalized, label, speed)] ∧
  ∀ wav, synthesize normalized label speed = Some wav →
    (compress = true → ∀ flac, flac_encode wav = Some flac →
       run.1 = Returned {| content := flac; media_type := "audio/flac" |}) ∧
    (compress = false →
       run.1 = Returned {| content := wav; media_type := "audio/wav" |}).
Proof.
  intros Hfresh Htext Hid Hclean label run. subst run label.
  rewrite tts_checked by done.
  destruct (synthesize normalized (lit "p" ++ str_of_int speaker_id) speed)
    as [wav|] eqn:Hsyn.
  - rewrite (tts_serve_run _ _ _ _ _ _ _ _ Hfresh Hclean Hsyn). cbv zeta.
    split.
    + destruct compress; [destruct (flac_encode wav) |]; done.
    + intros ? [= <-]. split; intros ->; [|done].
      by intros flac ->.
  - rewrite (tts_serve_synthesis_failure _ _ _ _ _ _ _ Hclean Hsyn).
    split; [done |]. by intros wav.
Qed.

(** C5 fails on the code: when the synthesis capability raises, the
    handler ends with that error and the temporary WAV file it made is
    still in the file system. *)
Theorem tts_synthesis_failure_leaves_temp_file (fuel : nat)
    (text normalized : str) (speaker_id : Z) speed (compress : option bool)
    (w : World float) :
  text ≠ [] → speaker_id ≠ 0%Z →
  clean_text_for_tts linesep demoji_replace fuel text = Some normalized →
  synthesize normalized (lit "p" ++ str_of_int speaker_id) speed = None →
  let run :=
    tts linesep demoji_replace synthesize flac_encode temp_name
      fuel (Some text) (Some speaker_id) speed compress w in
  run.1 = Raised SynthesisError ∧
  files run.2 !! temp_name (files w) ".wav" = Some [].
Proof.
  intros Htext Hid Hclean Hsyn run. subst run.
  rewrite tts_checked by done.
  rewrite (tts_serve_synthesis_failure _ _ _ _ _ _ _ Hclean Hsyn).
  split; [done |]. apply lookup_insert_eq.
Qed.

(** X15.  When both capabilities succeed the handler removes the files it
    made: the file system is left as it was found. *)
Lemma tts_success_removes_temp_files (fuel : nat) (text normalized : str)
    (speaker_id : Z) speed (compress : bool) (w : World float)
    (wav flac : bytes) :
  (∀ fs suffix, fs !! temp_name fs suffix = None) →
  text ≠ [] → speaker_id ≠ 0%Z →
  clean_text_for_tts linesep demoji_replace fuel text = Some normalized →
  synthesize normalized (lit "p" ++ str_of_int speaker_id) speed = Some wav →
  flac_encode wav = Some flac →
  files (handler fuel (Some text) (Some speaker_id) speed (Some compress) w).2
  = files w.
Proof.
  intros Hfresh Htext Hid Hclean Hsyn Hflac.
  rewrite tts_checked by done.
  rewrite (tts_serve_run _ _ _ _ _ _ _ _ Hfresh Hclean Hsyn). cbv zeta.
  rewrite Hflac. by destruct compress.
Qed.

(** X16.  When the encoder raises, the handler ends with that error, and
    the WAV file and the empty FLAC file both stay. *)
Lemma tts_encoder_failure_leaves_temp_files (fuel : nat)
    (text normalized : str) (speaker_id : Z) speed (w : World float)
    (wav : bytes) :
  (∀ fs suffix, fs !! temp_name fs suffix = None) →
  text ≠ [] → speaker_id ≠ 0%Z →
  clean_text_for_tts linesep demoji_replace fuel text = Some normalized →
  synthesize normalized (lit "p" ++ str_of_int speaker_id) speed = Some wav →
  flac_encode wav = None →
  let run := handler fuel (Some text) (Some speaker_id) speed (Some true) w in
  let wav_path := temp_name (files w) ".wav" in
  let flac_path :=
    temp_name (<[wav_path := wav]> (<[wav_path := []]> (files w))) ".flac" in
  run.1 = Raised EncoderError ∧
  files run.2 !! wav_path = Some wav ∧ files run.2 !! flac_path = Some [].
Proof.
  intros Hfresh Htext Hid Hclean Hsyn Hflac run wav_path flac_path. subst run.
  rewrite tts_checked by done.
  rewrite (tts_serve_run _ _ _ _ _ _ _ _ Hfresh Hclean Hsyn). cbv zeta.
  rewrite Hflac. fold wav_path. fold flac_path. simpl.
  pose proof (Hfresh (<[wav_path := wav]> (<[wav_path := []]> (files w)))
                ".flac") as Hnew.
  fold flac_path in Hnew.
  assert (flac_path ≠ wav_path) as Hne.
  { intros E. rewrite E in Hnew. by rewrite lookup_insert_eq in Hnew. }
  split_and!; [done | | apply lookup_insert_eq].
  rewrite lookup_insert_ne by done. apply lookup_insert_eq.
Qed.

(** *** What every request leaves behind *)

(** The handler when the loops of the normalizer run out of fuel. *)
Lemma tts_serve_out_of_fuel (fuel : nat) (text : str) (speaker_id : Z) speed
    (compress : option bool) (w : World float) :
  clean_text_for_tts linesep demoji_replace fuel text = None →
  serve fuel text speaker_id speed compress w
  = (OutOfFuel,
     {| files := <[temp_name (files w) ".wav" := []]> (files w);
        synth_calls := synth_calls w |}).
Proof.
  intros H. unfold tts_serve. rewrite run_named_temporary_file.
  unfold bind, call_clean_text_for_tts. by rewrite H.
Qed.

(** The one call of a request that passes the checks, whatever the
    capabilities do and whatever the temporary names are. *)
Lemma tts_serve_calls (fuel : nat) (text normalized : str) (speaker_id : Z)
    speed (compress : option bool) (w : World float) :
  clean_text_for_tts linesep demoji_replace fuel text = Some normalized →
  synth_calls (serve fuel text speaker_id speed compress w).2
  = synth_calls w
    ++ [(normalized, lit "p" ++ str_of_int speaker_id, speed)].
Proof.
  intros Hclean. unfold tts_serve. rewrite run_named_temporary_file.
  rewrite (run_call_clean_text_for_tts _ _ _ _ _ Hclean), run_tts_to_file.
  cbv zeta.
  destruct (synthesize normalized _ speed) as [wav|]; [|done].
  match goal with
  | |- synth_calls (?m ?w').2 = _ => assert (keeps_calls m) as Hkeep
  end.
  { destruct (truthy compress);
      repeat (first [ apply keeps_calls_bind; [|intros ?]
                    | apply keeps_calls_ret
                    | apply keeps_calls_named_temporary_file
                    | apply keeps_calls_file_encoder
                    | apply keeps_calls_read_file
                    | apply keeps_calls_os_remove ]). }
  by rewrite Hkeep.
Qed.

(** X10.  A request that ends in an [HTTPException] has changed nothing: no
    file is made and the synthesis capability is not called.  The status
    is 400, and the detail tells which check failed, the check of the text
    coming first. *)
Theorem tts_rejected_untouched (fuel : nat) (text : option str)
    (speaker_id : option Z) speed (compress : option bool)
    (w : World float) (code : Z) (detail : string) :
  let run :=
    tts linesep demoji_replace synthesize flac_encode temp_name
      fuel text speaker_id speed compress w in
  run.1 = Raised (HTTPException code detail) →
  run.2 = w ∧ code = 400%Z ∧
  ((detail = "Text to convert into speech must be provided."%string ∧
    (text = None ∨ text = Some []))
   ∨ (detail = "Speaker ID must be provided."%string ∧
      (∃ t, text = Some t ∧ t ≠ []) ∧
      (speaker_id = None ∨ speaker_id = Some 0%Z))).
Proof.
  intros run H. subst run.
  destruct text as [[|c t]|];
    [ injection H as <- <-; split_and!; [done | done |]; left; by auto
    | | injection H as <- <-; split_and!; [done | done |]; left; by auto ].
  destruct speaker_id as [n|];
    [| injection H as <- <-; split_and!; [done | done |]; right;
       split_and!; by eauto ].
  destruct (decide (n = 0%Z)) as [-> | Hn];
    [ injection H as <- <-; split_and!; [done | done |]; right;
      split_and!; by eauto |].
  rewrite tts_checked in H by done.
  by apply tts_serve_no_http_error in H.
Qed.

(** X11.  A response is returned only after the synthesis of the normalized
    text has succeeded; its media type is [audio/flac] when [compress] is
    true and [audio/wav] otherwise, and a WAV response carries what the
    synthesis capability wrote, whatever the temporary names are. *)
Theorem tts_response (fuel : nat) (text : option str) (speaker_id : option Z)
    speed (compress : option bool) (w : World float) (resp : Response) :
  (tts linesep demoji_replace synthesize flac_encode temp_name
     fuel text speaker_id speed compress w).1 = Returned resp →
  ∃ t sid normalized wav,
    text = Some t ∧ t ≠ [] ∧ speaker_id = Some sid ∧ sid ≠ 0%Z ∧
    clean_text_for_tts linesep demoji_replace fuel t = Some normalized ∧
    synthesize normalized (lit "p" ++ str_of_int sid) speed = Some wav ∧
    media_type resp
    = (if truthy compress then "audio/flac" else "audio/wav")%string ∧
    (truthy compress = false → content resp = wav).
Proof.
  intros H.
  destruct text as [[|c t]|]; [done | | done].
  destruct speaker_id as [sid|]; [|done].
  destruct (decide (sid = 0%Z)) as [-> | Hsid]; [done |].
  rewrite tts_checked in H by done.
  exists (c :: t), sid.
  destruct (clean_text_for_tts linesep demoji_replace fuel (c :: t))
    as [normalized|] eqn:Hclean;
    [| by rewrite tts_serve_out_of_fuel in H].
  destruct (synthesize normalized (lit "p" ++ str_of_int sid) speed)
    as [wav|] eqn:Hsyn;
    [| by rewrite (tts_serve_synthesis_failure _ _ _ _ _ _ _ Hclean Hsyn) in H].
  exists normalized, wav. split_and!; try done.
  - revert H. unfold tts_serve.
    rewrite run_named_temporary_file.
    rewrite (run_call_clean_text_for_tts _ _ _ _ _ Hclean).
    rewrite run_tts_to_file, Hsyn. cbv zeta.
    unfold bind, named_temporary_file, file_encoder, read_file, os_remove, ret.
    destruct (truthy compress); simpl;
      repeat (case_match; simplify_eq/=; try done); by intros [= <-].
  - intros Hc. revert H. unfold tts_serve.
    rewrite run_named_temporary_file.
    rewrite (run_call_clean_text_for_tts _ _ _ _ _ Hclean).
    rewrite run_tts_to_file, Hsyn, Hc. cbv zeta.
    rewrite (run_read_file _ wav) by (simpl; apply lookup_insert_eq).
    rewrite (run_os_remove _ wav) by (simpl; apply lookup_insert_eq).
    by intros [= <-].
Qed.

(** X12.  A request adds at most one call to the calls made to the synthesis
    capability, keeps the earlier ones, and the text of the call it adds
    has no percent sign, no asterisk, no carriage return and no two spaces
    in a row. *)
Theorem tts_calls (fuel : nat) (text : option str) (speaker_id : option Z)
    speed (compress : option bool) (w : World float) :
  ∃ new,
    synth_calls
      (tts linesep demoji_replace synthesize flac_encode temp_name
         fuel text speaker_id speed compress w).2
    = synth_calls w ++ new ∧
    length new ≤ 1 ∧
    ∀ call, call ∈ new →
      (PERCENT ∉ call.1.1) ∧ (STAR ∉ call.1.1) ∧ (CR ∉ call.1.1) ∧
      no_double_space call.1.1.
Proof.
  assert (∃ new : list (str * str * option float),
            synth_calls w = synth_calls w ++ new ∧ length new ≤ 1 ∧
            ∀ call, call ∈ new →
              (PERCENT ∉ call.1.1) ∧ (STAR ∉ call.1.1) ∧ (CR ∉ call.1.1) ∧
              no_double_space call.1.1) as Hnone.
  { exists []. rewrite app_nil_r. split_and!; [done | simpl; lia |].
    by intros call ?%elem_of_nil. }
  destruct text as [[|c t]|]; [done | | done].
  destruct speaker_id as [sid|]; [|done].
  destruct (decide (sid = 0%Z)) as [-> | Hsid]; [done |].
  rewrite tts_checked by done.
  destruct (clean_text_for_tts linesep demoji_replace fuel (c :: t))
    as [normalized|] eqn:Hclean; [| by rewrite tts_serve_out_of_fuel].
  rewrite (tts_serve_calls _ _ _ _ _ _ _ Hclean).
  eexists. split_and!; [done | simpl; lia |].
  intros call ->%list_elem_of_singleton. simpl.
  unfold clean_text_for_tts in Hclean.
  destruct (remove_markdown_styles fuel _) as [m|]; [|done].
  injection Hclean as <-. apply substitutions_free.
Qed.

(** X13.  A negative speaker id passes the check: the synthesis capability
    is called with the label p, a minus sign and the numeral of the
    absolute value. *)
Theorem tts_negative_speaker_id (fuel : nat) (text normalized : str)
    (speaker_id : Z) speed (compress : option bool) (w : World float) :
  text ≠ [] → (speaker_id < 0)%Z →
  clean_text_for_tts linesep demoji_replace fuel text = Some normalized →
  synth_calls
    (tts linesep demoji_replace synthesize flac_encode temp_name
       fuel (Some text) (Some speaker_id) speed compress w).2
  = synth_calls w
    ++ [(normalized, lit "p-" ++ str_of_int (- speaker_id), speed)].
Proof.
  intros Htext Hneg Hclean. rewrite tts_checked by (done || lia).
  rewrite (tts_serve_calls _ _ _ _ _ _ _ Hclean).
  by rewrite (str_of_int_neg speaker_id Hneg).
Qed.

(** X14.  A text of white space only, line boundaries included, passes the
    check of the text, which does not trim: the synthesis capability is
    called with the empty string.  The platform's separator is LF or CR LF
    and the emoji stripper only deletes. *)
Theorem tts_white_space_text (fuel : nat) (text : str) (speaker_id : Z) speed
    (compress : option bool) (w : World float) :
  linesep = [LF] ∨ linesep = [CR; LF] →
  (∀ s c, c ∈ demoji_replace s → c ∈ s) →
  text ≠ [] →
  Forall (λ c, is_space c = true) text →
  speaker_id ≠ 0%Z →
  synth_calls
    (tts linesep demoji_replace synthesize flac_encode temp_name
       fuel (Some text) (Some speaker_id) speed compress w).2
  = synth_calls w ++ [([], lit "p" ++ str_of_int speaker_id, speed)].
Proof.
  intros Hsep Hdel Htext Hws Hid. rewrite tts_checked by done.
  apply tts_serve_calls. apply clean_text_for_tts_all_white_space; try done.
  destruct Hsep as [-> | ->]; by repeat constructor.
Qed.

End HandlerFacts.

Lemma tts_valid_request_witness :
  let w := {| files := ∅; synth_calls := [] |} in
  let run := tts [LF] strip_pictographs sample_synthesize sample_flac_encode
               sample_temp_name 1 (Some (lit "**Hi**")) (Some 225%Z)
               (Some 1%Q) (Some false) w in
  synth_calls run.2 = [(lit "Hi", lit "p225", Some 1%Q)] ∧
  run.1 = Returned {| content := [Byte.x52; Byte.x49; Byte.x46; Byte.x46;
                                  Byte.x00; Byte.x00];
                      media_type := "audio/wav" |}.
Proof.
  intros w run.
  destruct (tts_valid_request [LF] strip_pictographs Q sample_synthesize
              sample_flac_encode sample_temp_name 1 (lit "**Hi**") (lit "Hi")
              225%Z (Some 1%Q) false w) as [Hcalls Hres];
    [ intros fs suffix; apply fresh_string_fresh | done | done
    | vm_compute; reflexivity | ].
  split; [exact Hcalls |].
  destruct (Hres _ eq_refl) as [_ Hwav]. exact (Hwav eq_refl).
Defined.

Lemma tts_synthesis_failure_leaves_temp_file_witness :
  let w := {| files := ∅; synth_calls := [] |} in
  let run := tts [LF] strip_pictographs sample_synthesize sample_flac_encode
               sample_temp_name 1 (Some (lit "**Hi**")) (Some 1%Z)
               (Some 1%Q) (Some true) w in
  run.1 = Raised SynthesisError ∧
  files run.2 !! sample_temp_name ∅ ".wav" = Some [].
Proof.
  apply (tts_synthesis_failure_leaves_temp_file [LF] strip_pictographs Q
           sample_synthesize sample_flac_encode sample_temp_name 1
           (lit "**Hi**") (lit "Hi") 1%Z (Some 1%Q) (Some true)
           {| files := ∅; synth_calls := [] |});
    [done | done | vm_compute; reflexivity | vm_compute; reflexivity].
Defined.

Lemma tts_rejected_untouched_witness :
  let w := {| files := ∅; synth_calls := [] |} in
  let run := tts [LF] strip_pictographs sample_synthesize sample_flac_encode
               sample_temp_name 1 (Some (lit "Hi")) (Some 0%Z) (Some 1%Q)
               (Some true) w in
  run.2 = w ∧ 400%Z = 400%Z ∧
  (("Speaker ID must be provided."%string
    = "Text to convert into speech must be provided."%string ∧
    (Some (lit "Hi") = None ∨ Some (lit "Hi") = Some []))
   ∨ ("Speaker ID must be provided."%string
      = "Speaker ID must be provided."%string ∧
      (∃ t, Some (lit "Hi") = Some t ∧ t ≠ []) ∧
      (Some 0%Z = None ∨ Some 0%Z = Some 0%Z))).
Proof.
  apply (tts_rejected_untouched [LF] strip_pictographs Q sample_synthesize
           sample_flac_encode sample_temp_name 1 (Some (lit "Hi")) (Some 0%Z)
           (Some 1%Q) (Some true) {| files := ∅; synth_calls := [] |}).
  reflexivity.
Defined.

Lemma tts_response_witness :
  ∃ t sid normalized wav,
    Some (lit "**Hi**") = Some t ∧ t ≠ [] ∧ Some 225%Z = Some sid ∧
    sid ≠ 0%Z ∧
    clean_text_for_tts [LF] strip_pictographs 1 t = Some normalized ∧
    sample_synthesize normalized (lit "p" ++ str_of_int sid) (Some 1%Q)
    = Some wav ∧
    "audio/wav"%string
    = (if truthy (Some false) then "audio/flac" else "audio/wav")%string ∧
    (truthy (Some false) = false →
     [Byte.x52; Byte.x49; Byte.x46; Byte.x46; Byte.x00; Byte.x00] = wav).
Proof.
  apply (tts_response [LF] strip_pictographs Q sample_synthesize
           sample_flac_encode sample_temp_name 1 (Some (lit "**Hi**"))
           (Some 225%Z) (Some 1%Q) (Some false)
           {| files := ∅; synth_calls := [] |}
           {| content := [Byte.x52; Byte.x49; Byte.x46; Byte.x46;
                          Byte.x00; Byte.x00];
              media_type := "audio/wav" |}).
  vm_compute. reflexivity.
Defined.

Lemma tts_negative_speaker_id_witness :
  synth_calls
    (tts [LF] strip_pictographs sample_synthesize sample_flac_encode
       sample_temp_name 1 (Some (lit "**Hi**")) (Some (-7)%Z) (Some 1%Q)
       (Some true) {| files := ∅; synth_calls := [] |}).2
  = [] ++ [(lit "Hi", lit "p-" ++ str_of_int (- -7), Some 1%Q)].
Proof.
  apply (tts_negative_speaker_id [LF] strip_pictographs Q sample_synthesize
           sample_flac_encode sample_temp_name 1 (lit "**Hi**") (lit "Hi")
           (-7)%Z (Some 1%Q) (Some true) {| files := ∅; synth_calls := [] |});
    [done | lia | vm_compute; reflexivity].
Defined.

Lemma tts_white_space_text_witness :
  synth_calls
    (tts [CR; LF] strip_pictographs sample_synthesize sample_flac_encode
       sample_temp_name 0 (Some [SP; LF; 9%N; CR; SP]) (Some 225%Z)
       (Some 1%Q) (Some true) {| files := ∅; synth_calls := [] |}).2
  = [] ++ [([], lit "p" ++ str_of_int 225, Some 1%Q)].
Proof.
  apply (tts_white_space_text [CR; LF] strip_pictographs Q sample_synthesize
           sample_flac_encode sample_temp_name 0 [SP; LF; 9%N; CR; SP] 225%Z
           (Some 1%Q) (Some true) {| files := ∅; synth_calls := [] |});
    [ by right | by intros s c [_ ?]%list_elem_of_filter | done
    | repeat constructor | done ].
Defined.

Lemma tts_success_removes_temp_files_witness :
  files
    (tts [LF] strip_pictographs sample_synthesize sample_flac_encode
       sample_temp_name 1 (Some (lit "**Hi**")) (Some 225%Z) (Some 1%Q)
       (Some true) {| files := ∅; synth_calls := [] |}).2
  = ∅.
Proof.
  apply (tts_success_removes_temp_files [LF] strip_pictographs Q
           sample_synthesize sample_flac_encode sample_temp_name 1
           (lit "**Hi**") (lit "Hi") 225%Z (Some 1%Q) true
           {| files := ∅; synth_calls := [] |}
           [Byte.x52; Byte.x49; Byte.x46; Byte.x46; Byte.x00; Byte.x00]
           (Byte.x66 :: Byte.x4c :: Byte.x61 :: Byte.x43
            :: [Byte.x52; Byte.x49; Byte.x46; Byte.x46; Byte.x00; Byte.x00]));
    [ intros fs suffix; apply fresh_string_fresh | done | done
    | vm_compute; reflexivity | vm_compute; reflexivity | reflexivity ].
Defined.

Lemma tts_encoder_failure_leaves_temp_files_witness :
  let w := {| files := ∅; synth_calls := [] |} in
  let wav := [Byte.x52; Byte.x49; Byte.x46; Byte.x46; Byte.x00; Byte.x00] in
  let run := tts [LF] strip_pictographs sample_synthesize broken_flac_encode
               sample_temp_name 1 (Some (lit "**Hi**")) (Some 225%Z)
               (Some 1%Q) (Some true) w in
  let wav_path := sample_temp_name (files w) ".wav" in
  let flac_path :=
    sample_temp_name (<[wav_path := wav]> (<[wav_path := []]> (files w)))
      ".flac" in
  run.1 = Raised EncoderError ∧
  files run.2 !! wav_path = Some wav ∧ files run.2 !! flac_path = Some [].
Proof.
  apply (tts_encoder_failure_leaves_temp_files [LF] strip_pictographs Q
           sample_synthesize broken_flac_encode sample_temp_name 1
           (lit "**Hi**") (lit "Hi") 225%Z (Some 1%Q)
           {| files := ∅; synth_calls := [] |});
    [ intros fs suffix; apply fresh_string_fresh | done | done
    | vm_compute; reflexivity | vm_compute; reflexivity | reflexivity ].
Defined.

(** A request served from an empty file system: the audio comes back and
    no temporary file is left. *)
Example tts_run :
  tts [LF] strip_pictographs sample_synthesize sample_flac_encode
    sample_temp_name 1 (Some (lit "**Hi**")) (Some 225%Z) (Some 1%Q)
    (Some true) {| files := ∅; synth_calls := [] |}
  = (Returned {| content := [Byte.x66; Byte.x4c; Byte.x61; Byte.x43;
                             Byte.x52; Byte.x49; Byte.x46; Byte.x46;
                             Byte.x00; Byte.x00];
                 media_type := "audio/flac" |},
     {| files := ∅;
        synth_calls := [(lit "Hi", lit "p225", Some 1%Q)] |}).
Proof. vm_compute. reflexivity. Qed.

(** The same request for a voice the synthesizer does not have: the error
    comes back and the temporary WAV file is still there. *)
Example tts_run_unknown_speaker :
  tts [LF] strip_pictographs sample_synthesize sample_flac_encode
    sample_temp_name 1 (Some (lit "**Hi**")) (Some 1%Z) (Some 1%Q)
    (Some true) {| files := ∅; synth_calls := [] |}
  = (Raised SynthesisError,
     {| files := {[ "/tmp/tmp.wav"%string := [] ]};
        synth_calls := [(lit "Hi", lit "p1", Some 1%Q)] |}).
Proof. vm_compute. reflexivity. Qed.
